(** * Transaction handler of go-algorand (package [data], txHandler.go)

    A shallow embedding of the gossip transaction pipeline: the decode step
    [processIncomingTxn], the fast-reject filter [checkAlreadyCommitted], the
    verification task [asyncVerifySignature], the post-verification action
    [postprocessCheckedTxn], the dispatcher loop [backlogWorker] and the
    solicited path [processDecoded] / [Handle].

    The handler owns two buffered channels and talks to four collaborators
    (transaction pool, ledger, gossip network, verification package).  The
    collaborators live in other packages; they are an interface here
    ([Collaborators]).  Everything the handler mutates is a field of the
    [TxHandler] state record and every function passes that state through
    explicitly.  Calls on the network and on the verifier are recorded in
    call logs, so that "is called exactly once" and "is called in order" are
    statements about the state.  Logging calls have no effect on the state
    and are left out.

    After the handler come the other packages of the sources: the currency
    and round arithmetic of package [basics], the logic signatures of
    package [transactions], and the Ledger hardware-wallet driver of
    package [driver], whose USB device is a parameter and whose traffic is
    recorded message by message. *)

From Stdlib Require Import Strings.Byte.
From stdpp Require Import base option list strings.
From stdpp Require Import gmap pretty.

(** Go's [error] interface; the nil error is [None] of [option error]. *)
Definition error := string.

(** basics.Address is a 32-byte digest. *)
Definition Address := list byte.
Definition Address_zero : Address := replicate 32 x00.

(** basics.Round is a uint64 (data/basics/units.go). *)
Definition Round := N.

(** protocol.ConsensusVersion and protocol.Tag are strings. *)
Definition ConsensusVersion := string.
Definition Tag := string.

(** transactions.SpecialAddresses *)
Record SpecialAddresses := {
  FeeSink : Address;
  RewardsPool : Address
}.

Definition SpecialAddresses_zero : SpecialAddresses :=
  {| FeeSink := Address_zero; RewardsPool := Address_zero |}.

(** The fields of bookkeeping.BlockHeader that the handler reads. *)
Record BlockHeader := {
  CurrentProtocol : ConsensusVersion;
  HdrFeeSink : Address;
  HdrRewardsPool : Address
}.

(** What one call of [dec.Decode(&v)] does on the bytes that are left:
    a clean end of stream ([io.EOF]), another error, or a record together
    with the bytes left after it. *)
Inductive DecodeResult (T : Type) :=
| DecEOF
| DecErr (e : error)
| DecOk (v : T) (rest : list byte).
Arguments DecEOF {T}.
Arguments DecErr {T} e.
Arguments DecOk {T} v rest.

(** The packages the handler imports.  [txPool_Test] and the ledger reads
    do not change their receiver; [txPool_Remember] returns the new pool. *)
Class Collaborators := {
  (* transactions *)
  SignedTxn : Type;
  SignedTxn_zero : SignedTxn;
  InitCaches : SignedTxn -> SignedTxn;
  (* config *)
  ConsensusParams : Type;
  ConsensusParams_zero : ConsensusParams;
  Consensus : ConsensusVersion -> ConsensusParams;
  (* protocol *)
  TxnTag : Tag;
  Encode : SignedTxn -> list byte;
  Decode : list byte -> DecodeResult SignedTxn;
  (* network *)
  Peer : Type;
  (* pools *)
  TransactionPool : Type;
  txPool_Test : TransactionPool -> list SignedTxn -> option error;
  txPool_Remember :
    TransactionPool -> list SignedTxn -> TransactionPool * option error;
  (* ledger *)
  Ledger : Type;
  ledger_Latest : Ledger -> Round;
  ledger_BlockHdr : Ledger -> Round -> BlockHeader + error;
  (* verify *)
  verify_Txn :
    SignedTxn -> SpecialAddresses -> ConsensusParams -> option error;
  verify_TxnPool :
    SignedTxn -> SpecialAddresses -> ConsensusParams -> option error
}.

(** Every successful [Decode] consumes at least one byte.  The decode loop
    of [processIncomingTxn] has no bound of its own; it ends because the
    decoder makes progress. *)
Definition decoder_progresses `{Collaborators} : Prop :=
  forall d v rest, Decode d = DecOk v rest -> length rest < length d.

(** bytes.Join *)
Fixpoint bytes_Join (s : list (list byte)) (sep : list byte) : list byte :=
  match s with
  | [] => []
  | [x] => x
  | x :: rest => x ++ sep ++ bytes_Join rest sep
  end.

Definition txBacklogSize : nat := 1000.

Section Handler.
Context `{C : Collaborators}.

(** network.IncomingMessage *)
Record IncomingMessage := {
  Sender : Peer;
  MsgTag : Tag;
  Data : list byte
}.

(** network.ForwardingPolicy and network.OutgoingMessage.  The composite
    literal [network.OutgoingMessage{}] has the zero policy, [Ignore]. *)
Inductive ForwardingPolicy := Ignore | Disconnect | Broadcast.

Record OutgoingMessage := { Action : ForwardingPolicy }.

Definition OutgoingMessage_zero : OutgoingMessage := {| Action := Ignore |}.

(** The calls the handler makes on [handler.net]. *)
Inductive NetCall :=
| NetDisconnect (badnode : Peer)
| NetRelay (tag : Tag) (data : list byte) (wait : bool) (except : Peer).

(** One call of verify.Txn or verify.TxnPool. *)
Record VerifyCall := {
  vc_txn : SignedTxn;
  vc_spec : SpecialAddresses;
  vc_proto : ConsensusParams
}.

Record txBacklogMsg := {
  rawmsg : option IncomingMessage;       (* *network.IncomingMessage, nil = None *)
  unverifiedTxGroup : list SignedTxn;
  proto : ConsensusParams;
  spec : SpecialAddresses;
  verificationErr : option error
}.

Definition set_verificationErr (e : option error) (tx : txBacklogMsg) :=
  {| rawmsg := rawmsg tx; unverifiedTxGroup := unverifiedTxGroup tx;
     proto := proto tx; spec := spec tx; verificationErr := e |}.

Definition set_unverifiedTxGroup (g : list SignedTxn) (tx : txBacklogMsg) :=
  {| rawmsg := rawmsg tx; unverifiedTxGroup := g;
     proto := proto tx; spec := spec tx;
     verificationErr := verificationErr tx |}.

Definition set_snapshot (p : ConsensusParams) (fs rp : Address)
    (tx : txBacklogMsg) :=
  {| rawmsg := rawmsg tx; unverifiedTxGroup := unverifiedTxGroup tx;
     proto := p; spec := {| FeeSink := fs; RewardsPool := rp |};
     verificationErr := verificationErr tx |}.

(** The handler, what its pointers point to, and the three package-level
    counters.  [txVerificationPool] holds the tasks handed to the execution
    pool that have not run yet; [ctxDone] is true once [ctxCancel] was
    called. *)
Record TxHandler := {
  txPool : TransactionPool;
  ledger : Ledger;
  txVerificationPool : list txBacklogMsg;
  backlogQueue : list txBacklogMsg;
  postVerificationQueue : list txBacklogMsg;
  net : list NetCall;
  verifyCalls : list VerifyCall;
  ctxDone : bool;
  transactionMessagesHandled : nat;
  transactionMessagesDroppedFromBacklog : nat;
  transactionMessagesDroppedFromPool : nat
}.

Definition MakeTxHandler (pool : TransactionPool) (l : Ledger) : TxHandler :=
  {| txPool := pool; ledger := l; txVerificationPool := [];
     backlogQueue := []; postVerificationQueue := [];
     net := []; verifyCalls := []; ctxDone := false;
     transactionMessagesHandled := 0;
     transactionMessagesDroppedFromBacklog := 0;
     transactionMessagesDroppedFromPool := 0 |}.

Definition set_txPool (p : TransactionPool) (h : TxHandler) : TxHandler :=
  {| txPool := p; ledger := ledger h;
     txVerificationPool := txVerificationPool h;
     backlogQueue := backlogQueue h;
     postVerificationQueue := postVerificationQueue h;
     net := net h; verifyCalls := verifyCalls h; ctxDone := ctxDone h;
     transactionMessagesHandled := transactionMessagesHandled h;
     transactionMessagesDroppedFromBacklog :=
       transactionMessagesDroppedFromBacklog h;
     transactionMessagesDroppedFromPool :=
       transactionMessagesDroppedFromPool h |}.

Definition set_ledger (l : Ledger) (h : TxHandler) : TxHandler :=
  {| txPool := txPool h; ledger := l;
     txVerificationPool := txVerificationPool h;
     backlogQueue := backlogQueue h;
     postVerificationQueue := postVerificationQueue h;
     net := net h; verifyCalls := verifyCalls h; ctxDone := ctxDone h;
     transactionMessagesHandled := transactionMessagesHandled h;
     transactionMessagesDroppedFromBacklog :=
       transactionMessagesDroppedFromBacklog h;
     transactionMessagesDroppedFromPool :=
       transactionMessagesDroppedFromPool h |}.

Definition set_txVerificationPool (q : list txBacklogMsg) (h : TxHandler) :=
  {| txPool := txPool h; ledger := ledger h;
     txVerificationPool := q;
     backlogQueue := backlogQueue h;
     postVerificationQueue := postVerificationQueue h;
     net := net h; verifyCalls := verifyCalls h; ctxDone := ctxDone h;
     transactionMessagesHandled := transactionMessagesHandled h;
     transactionMessagesDroppedFromBacklog :=
       transactionMessagesDroppedFromBacklog h;
     transactionMessagesDroppedFromPool :=
       transactionMessagesDroppedFromPool h |}.

Definition set_backlogQueue (q : list txBacklogMsg) (h : TxHandler) :=
  {| txPool := txPool h; ledger := ledger h;
     txVerificationPool := txVerificationPool h;
     backlogQueue := q;
     postVerificationQueue := postVerificationQueue h;
     net := net h; verifyCalls := verifyCalls h; ctxDone := ctxDone h;
     transactionMessagesHandled := transactionMessagesHandled h;
     transactionMessagesDroppedFromBacklog :=
       transactionMessagesDroppedFromBacklog h;
     transactionMessagesDroppedFromPool :=
       transactionMessagesDroppedFromPool h |}.

Definition set_postVerificationQueue (q : list txBacklogMsg) (h : TxHandler) :=
  {| txPool := txPool h; ledger := ledger h;
     txVerificationPool := txVerificationPool h;
     backlogQueue := backlogQueue h;
     postVerificationQueue := q;
     net := net h; verifyCalls := verifyCalls h; ctxDone := ctxDone h;
     transactionMessagesHandled := transactionMessagesHandled h;
     transactionMessagesDroppedFromBacklog :=
       transactionMessagesDroppedFromBacklog h;
     transactionMessagesDroppedFromPool :=
       transactionMessagesDroppedFromPool h |}.

Definition set_net (n : list NetCall) (h : TxHandler) : TxHandler :=
  {| txPool := txPool h; ledger := ledger h;
     txVerificationPool := txVerificationPool h;
     backlogQueue := backlogQueue h;
     postVerificationQueue := postVerificationQueue h;
     net := n; verifyCalls := verifyCalls h; ctxDone := ctxDone h;
     transactionMessagesHandled := transactionMessagesHandled h;
     transactionMessagesDroppedFromBacklog :=
       transactionMessagesDroppedFromBacklog h;
     transactionMessagesDroppedFromPool :=
       transactionMessagesDroppedFromPool h |}.

Definition set_verifyCalls (v : list VerifyCall) (h : TxHandler) : TxHandler :=
  {| txPool := txPool h; ledger := ledger h;
     txVerificationPool := txVerificationPool h;
     backlogQueue := backlogQueue h;
     postVerificationQueue := postVerificationQueue h;
     net := net h; verifyCalls := v; ctxDone := ctxDone h;
     transactionMessagesHandled := transactionMessagesHandled h;
     transactionMessagesDroppedFromBacklog :=
       transactionMessagesDroppedFromBacklog h;
     transactionMessagesDroppedFromPool :=
       transactionMessagesDroppedFromPool h |}.

Definition set_ctxDone (b : bool) (h : TxHandler) : TxHandler :=
  {| txPool := txPool h; ledger := ledger h;
     txVerificationPool := txVerificationPool h;
     backlogQueue := backlogQueue h;
     postVerificationQueue := postVerificationQueue h;
     net := net h; verifyCalls := verifyCalls h; ctxDone := b;
     transactionMessagesHandled := transactionMessagesHandled h;
     transactionMessagesDroppedFromBacklog :=
       transactionMessagesDroppedFromBacklog h;
     transactionMessagesDroppedFromPool :=
       transactionMessagesDroppedFromPool h |}.

(** [counter.Inc(nil)] on each of the three counters. *)
Definition inc_transactionMessagesHandled (h : TxHandler) : TxHandler :=
  {| txPool := txPool h; ledger := ledger h;
     txVerificationPool := txVerificationPool h;
     backlogQueue := backlogQueue h;
     postVerificationQueue := postVerificationQueue h;
     net := net h; verifyCalls := verifyCalls h; ctxDone := ctxDone h;
     transactionMessagesHandled := S (transactionMessagesHandled h);
     transactionMessagesDroppedFromBacklog :=
       transactionMessagesDroppedFromBacklog h;
     transactionMessagesDroppedFromPool :=
       transactionMessagesDroppedFromPool h |}.

Definition inc_transactionMessagesDroppedFromBacklog (h : TxHandler) :=
  {| txPool := txPool h; ledger := ledger h;
     txVerificationPool := txVerificationPool h;
     backlogQueue := backlogQueue h;
     postVerificationQueue := postVerificationQueue h;
     net := net h; verifyCalls := verifyCalls h; ctxDone := ctxDone h;
     transactionMessagesHandled := transactionMessagesHandled h;
     transactionMessagesDroppedFromBacklog :=
       S (transactionMessagesDroppedFromBacklog h);
     transactionMessagesDroppedFromPool :=
       transactionMessagesDroppedFromPool h |}.

Definition inc_transactionMessagesDroppedFromPool (h : TxHandler) :=
  {| txPool := txPool h; ledger := ledger h;
     txVerificationPool := txVerificationPool h;
     backlogQueue := backlogQueue h;
     postVerificationQueue := postVerificationQueue h;
     net := net h; verifyCalls := verifyCalls h; ctxDone := ctxDone h;
     transactionMessagesHandled := transactionMessagesHandled h;
     transactionMessagesDroppedFromBacklog :=
       transactionMessagesDroppedFromBacklog h;
     transactionMessagesDroppedFromPool :=
       S (transactionMessagesDroppedFromPool h) |}.

(** [handler.net.Disconnect(p)] and [handler.net.Relay(ctx, tag, data, wait, except)] *)
Definition net_Disconnect (p : Peer) (h : TxHandler) : TxHandler :=
  set_net (net h ++ [NetDisconnect p]) h.

Definition net_Relay (tag : Tag) (data : list byte) (wait : bool)
    (except : Peer) (h : TxHandler) : TxHandler :=
  set_net (net h ++ [NetRelay tag data wait except]) h.

(** A channel of capacity [txBacklogSize] is its buffer.  Nothing in the
    package closes the two channels, so a receive never yields [ok = false].
    [select { case ch <- x: ... default: ... }] sends when the buffer has
    room and takes the default branch otherwise. *)
Definition chan_full (q : list txBacklogMsg) : bool :=
  bool_decide (txBacklogSize <= length q).

(** ** reencode *)

Definition reencode (stxns : list SignedTxn) : list byte :=
  let result :=
    fold_left (fun result stxn => result ++ [Encode stxn]) stxns [] in
  bytes_Join result [].

(** ** postprocessCheckedTxn

    [None] is the nil-pointer panic of [wi.rawmsg.Sender] on an item without
    a raw message. *)
Definition postprocessCheckedTxn (handler : TxHandler) (wi : txBacklogMsg)
    : option TxHandler :=
  match verificationErr wi with
  | Some _ =>
      match rawmsg wi with
      | None => None
      | Some m => Some (net_Disconnect (Sender m) handler)
      end
  | None =>
      let handler := inc_transactionMessagesHandled handler in
      let verifiedTxGroup := unverifiedTxGroup wi in
      let '(pool', err) := txPool_Remember (txPool handler) verifiedTxGroup in
      let handler := set_txPool pool' handler in
      match err with
      | Some _ => Some handler
      | None =>
          match rawmsg wi with
          | None => None
          | Some m =>
              Some (net_Relay TxnTag (reencode verifiedTxGroup) false
                      (Sender m) handler)
          end
      end
  end.

(** ** asyncVerifySignature

    The range loop: each iteration overwrites [tx.verificationErr] with the
    result of verify.Txn and breaks when it is not nil. *)
Fixpoint asyncVerifySignature_loop (txns : list SignedTxn)
    (tx : txBacklogMsg) (calls : list VerifyCall)
    : txBacklogMsg * list VerifyCall :=
  match txns with
  | [] => (tx, calls)
  | txn :: rest =>
      let calls :=
        calls ++ [{| vc_txn := txn; vc_spec := spec tx; vc_proto := proto tx |}] in
      let tx := set_verificationErr (verify_Txn txn (spec tx) (proto tx)) tx in
      match verificationErr tx with
      | Some _ => (tx, calls)
      | None => asyncVerifySignature_loop rest tx calls
      end
  end.

Definition asyncVerifySignature (handler : TxHandler) (tx : txBacklogMsg)
    : TxHandler :=
  let '(tx, calls) :=
    asyncVerifySignature_loop (unverifiedTxGroup tx) tx (verifyCalls handler) in
  let handler := set_verifyCalls calls handler in
  if chan_full (postVerificationQueue handler)
  then inc_transactionMessagesDroppedFromPool handler
  else set_postVerificationQueue (postVerificationQueue handler ++ [tx]) handler.

(** ** processIncomingTxn *)

(** The decode loop.  [unverifiedTxGroup] is the slice with its zero-valued
    tail, [ntx] the number of records decoded so far, [dec] the bytes the
    decoder has left.  The result is [inl] for the early return, [inr] for
    the state at [break]; [None] when the fuel is used up.  What a failing
    [Decode] leaves in slot [ntx] is not kept: the slot is beyond the
    [ntx] records that the function goes on with. *)
Fixpoint decode_loop (fuel : nat) (dec : list byte) (ntx : nat)
    (unverifiedTxGroup : list SignedTxn)
    : option (OutgoingMessage + (nat * list SignedTxn)) :=
  match fuel with
  | 0 => None
  | S fuel =>
      let unverifiedTxGroup :=
        if decide (length unverifiedTxGroup = ntx)
        then
          (* n := make([]SignedTxn, len*2); copy(n, unverifiedTxGroup) *)
          unverifiedTxGroup
            ++ replicate (length unverifiedTxGroup * 2 - length unverifiedTxGroup)
                 SignedTxn_zero
        else unverifiedTxGroup in
      match Decode dec with
      | DecEOF => Some (inr (ntx, unverifiedTxGroup))
      | DecErr _ => Some (inl {| Action := Disconnect |})
      | DecOk v rest =>
          decode_loop fuel rest (S ntx) (<[ntx := v]> unverifiedTxGroup)
      end
  end.

Definition processIncomingTxn (handler : TxHandler) (rawmsg : IncomingMessage)
    : option (TxHandler * OutgoingMessage) :=
  match decode_loop (S (length (Data rawmsg))) (Data rawmsg) 0
          (replicate 1 SignedTxn_zero) with
  | None => None
  | Some (inl out) => Some (handler, out)
  | Some (inr (ntx, unverifiedTxGroup)) =>
      if decide (ntx = 0)
      then Some (handler, {| Action := Disconnect |})
      else
        let unverifiedTxGroup := take ntx unverifiedTxGroup in
        let item :=
          {| rawmsg := Some rawmsg; unverifiedTxGroup := unverifiedTxGroup;
             proto := ConsensusParams_zero; spec := SpecialAddresses_zero;
             verificationErr := None |} in
        let handler :=
          if chan_full (backlogQueue handler)
          then inc_transactionMessagesDroppedFromBacklog handler
          else set_backlogQueue (backlogQueue handler ++ [item]) handler in
        Some (handler, {| Action := Ignore |})
  end.

(** ** checkAlreadyCommitted

    The item is passed by pointer: the function returns the item as it is
    after the call, next to [processingDone].  The first loop calls
    [InitCaches] on every transaction of the group in place (the IDs it
    collects are only logged). *)
Definition checkAlreadyCommitted (handler : TxHandler) (tx : txBacklogMsg)
    : txBacklogMsg * bool :=
  let tx := set_unverifiedTxGroup (map InitCaches (unverifiedTxGroup tx)) tx in
  match txPool_Test (txPool handler) (unverifiedTxGroup tx) with
  | Some _ => (tx, true)
  | None =>
      let latest := ledger_Latest (ledger handler) in
      match ledger_BlockHdr (ledger handler) latest with
      | inr _ => (tx, true)
      | inl latestHdr =>
          (set_snapshot (Consensus (CurrentProtocol latestHdr))
             (HdrFeeSink latestHdr) (HdrRewardsPool latestHdr) tx,
           false)
      end
  end.

(** ** processDecoded and the solicited handler *)

(** The verification loop of [processDecoded]: [Some err] at the first
    transaction that verify.TxnPool refuses. *)
Fixpoint processDecoded_loop (txns : list SignedTxn) (tx : txBacklogMsg)
    (calls : list VerifyCall) : option error * list VerifyCall :=
  match txns with
  | [] => (None, calls)
  | txn :: rest =>
      let calls :=
        calls ++ [{| vc_txn := txn; vc_spec := spec tx; vc_proto := proto tx |}] in
      match verify_TxnPool txn (spec tx) (proto tx) with
      | Some err => (Some err, calls)
      | None => processDecoded_loop rest tx calls
      end
  end.

(** The caller's slice shares its elements with [tx.unverifiedTxGroup], so
    after [checkAlreadyCommitted] the loop ranges over the transactions with
    their caches initialised. *)
Definition processDecoded (handler : TxHandler) (group : list SignedTxn)
    : TxHandler * OutgoingMessage * bool :=
  let tx :=
    {| rawmsg := None; unverifiedTxGroup := group;
       proto := ConsensusParams_zero; spec := SpecialAddresses_zero;
       verificationErr := None |} in
  let '(tx, processingDone) := checkAlreadyCommitted handler tx in
  if processingDone then (handler, OutgoingMessage_zero, true)
  else
    let group := unverifiedTxGroup tx in
    let '(err, calls) :=
      processDecoded_loop group tx (verifyCalls handler) in
    let handler := set_verifyCalls calls handler in
    match err with
    | Some _ => (handler, {| Action := Disconnect |}, true)
    | None =>
        let verifiedTxGroup := group in
        let '(pool', err) :=
          txPool_Remember (txPool handler) verifiedTxGroup in
        let handler := set_txPool pool' handler in
        match err with
        | Some _ => (handler, OutgoingMessage_zero, true)
        | None => (handler, OutgoingMessage_zero, false)
        end
    end.

(** solicitedTxHandler.Handle *)
Definition Handle (handler : TxHandler) (txgroup : list SignedTxn)
    : TxHandler * option error :=
  let '(handler, outmsg, _) := processDecoded handler txgroup in
  match Action outmsg with
  | Disconnect => (handler, Some "invlid transaction")
  | _ => (handler, None)
  end.

(** ** backlogWorker

    The dispatcher goroutine, one step at a time.  [PriorityCheck] is the
    first select (receive from the post-verification queue, or default);
    [BlockingSelect] is the second one.  Other goroutines run between the
    two, so the queues seen by the second select need not be the ones seen
    by the first. *)
Inductive WorkerPc := PriorityCheck | BlockingSelect | Returned | Panicked.

(** The case that Go's select picks among those that can proceed. *)
Inductive SelectCase := CaseBacklog | CasePostVerification | CaseDone.

Inductive WorkerEvent :=
| EvResult (wi : txBacklogMsg)        (* an item of the post-verification queue is processed *)
| EvDefault                           (* the first select takes its default branch *)
| EvBacklog (wi : txBacklogMsg)       (* an item of the backlog queue is taken *)
| EvDone.                             (* ctx.Done() *)

(** Modelled from the spec: execpool.BacklogPool.EnqueueBacklog is outside
    the sources.  The pool accepts a task bound to one item; the submission
    does not block the dispatcher; the task runs later on a worker. *)
Definition EnqueueBacklog (handler : TxHandler) (wi : txBacklogMsg)
    : TxHandler :=
  set_txVerificationPool (txVerificationPool handler ++ [wi]) handler.

Definition run_postprocess (handler : TxHandler) (wi : txBacklogMsg)
    : WorkerPc * TxHandler :=
  match postprocessCheckedTxn handler wi with
  | Some handler => (PriorityCheck, handler)
  | None => (Panicked, handler)
  end.

(** One step of the loop.  [None]: the worker cannot move (it has returned,
    or the chosen case of the blocking select cannot proceed). *)
Definition backlogWorker_step (choice : SelectCase) (pc : WorkerPc)
    (handler : TxHandler) : option (WorkerEvent * (WorkerPc * TxHandler)) :=
  match pc with
  | PriorityCheck =>
      match postVerificationQueue handler with
      | wi :: q =>
          Some (EvResult wi,
                run_postprocess (set_postVerificationQueue q handler) wi)
      | [] => Some (EvDefault, (BlockingSelect, handler))
      end
  | BlockingSelect =>
      match choice with
      | CaseBacklog =>
          match backlogQueue handler with
          | wi :: q =>
              let handler := set_backlogQueue q handler in
              let '(wi', processingDone) := checkAlreadyCommitted handler wi in
              if processingDone
              then Some (EvBacklog wi, (PriorityCheck, handler))
              else Some (EvBacklog wi, (PriorityCheck, EnqueueBacklog handler wi'))
          | [] => None
          end
      | CasePostVerification =>
          match postVerificationQueue handler with
          | wi :: q =>
              Some (EvResult wi,
                    run_postprocess (set_postVerificationQueue q handler) wi)
          | [] => None
          end
      | CaseDone =>
          if ctxDone handler then Some (EvDone, (Returned, handler)) else None
      end
  | Returned | Panicked => None
  end.

(** What the other goroutines do to the handler's state: the network layer
    delivers a gossip message, a worker of the execution pool runs the
    [i]-th pending task, [Stop] cancels the context, a caller uses the
    solicited handler, the ledger moves on. *)
Inductive EnvAction :=
| GossipMessage (m : IncomingMessage)
| VerifyTaskRuns (i : nat)
| StopCalled
| SolicitedHandle (txgroup : list SignedTxn)
| LedgerAdvances (l : Ledger).

Definition env_step (a : EnvAction) (handler : TxHandler) : option TxHandler :=
  match a with
  | GossipMessage m => fst <$> processIncomingTxn handler m
  | VerifyTaskRuns i =>
      match txVerificationPool handler !! i with
      | Some tx =>
          Some (asyncVerifySignature
                  (set_txVerificationPool (delete i (txVerificationPool handler))
                     handler) tx)
      | None => None
      end
  | StopCalled => Some (set_ctxDone true handler)
  | SolicitedHandle g => Some (fst (Handle handler g))
  | LedgerAdvances l => Some (set_ledger l handler)
  end.

(** The states of worker and handler that a run can be in after [Start]. *)
Inductive reachable : WorkerPc -> TxHandler -> Prop :=
| reach_start pool l : reachable PriorityCheck (MakeTxHandler pool l)
| reach_worker choice pc h ev pc' h' :
    reachable pc h ->
    backlogWorker_step choice pc h = Some (ev, (pc', h')) ->
    reachable pc' h'
| reach_env a pc h h' :
    reachable pc h ->
    env_step a h = Some h' ->
    reachable pc h'.

(** ** Vocabulary of the statements *)

(** How a byte stream ends for the decoder. *)
Inductive StreamEnd := EndEOF | EndErr (e : error).

(** [decodes d recs fin]: calling [Decode] again and again on [d] yields the
    records [recs], in this order, and then [fin]. *)
Inductive decodes : list byte -> list SignedTxn -> StreamEnd -> Prop :=
| decodes_eof d : Decode d = DecEOF -> decodes d [] EndEOF
| decodes_err d e : Decode d = DecErr e -> decodes d [] (EndErr e)
| decodes_ok d v rest recs fin :
    Decode d = DecOk v rest ->
    decodes rest recs fin ->
    decodes d (v :: recs) fin.

(** [first_failure check l checked err]: checking the elements of [l] in
    order and stopping at the first one that fails looks at [checked] and
    ends with [err]. *)
Inductive first_failure (check : SignedTxn -> option error)
    : list SignedTxn -> list SignedTxn -> option error -> Prop :=
| ff_all_pass l :
    Forall (fun txn => check txn = None) l ->
    first_failure check l l None
| ff_fails pre txn post e :
    Forall (fun txn => check txn = None) pre ->
    check txn = Some e ->
    first_failure check (pre ++ txn :: post) (pre ++ [txn]) (Some e).

(** The call of the verifier on [txn] with the snapshot of [tx]. *)
Definition call_with (tx : txBacklogMsg) (txn : SignedTxn) : VerifyCall :=
  {| vc_txn := txn; vc_spec := spec tx; vc_proto := proto tx |}.

(** The item that [processIncomingTxn] builds for a decoded group. *)
Definition gossip_item (m : IncomingMessage) (group : list SignedTxn)
    : txBacklogMsg :=
  {| rawmsg := Some m; unverifiedTxGroup := group;
     proto := ConsensusParams_zero; spec := SpecialAddresses_zero;
     verificationErr := None |}.

(** The item that [processDecoded] builds for a solicited group. *)
Definition solicited_item (group : list SignedTxn) : txBacklogMsg :=
  {| rawmsg := None; unverifiedTxGroup := group;
     proto := ConsensusParams_zero; spec := SpecialAddresses_zero;
     verificationErr := None |}.

(** The non-blocking sends of [processIncomingTxn] and
    [asyncVerifySignature], as functions of the state before the select. *)
Definition try_enqueue_backlog (tx : txBacklogMsg) (h : TxHandler) : TxHandler :=
  if chan_full (backlogQueue h)
  then inc_transactionMessagesDroppedFromBacklog h
  else set_backlogQueue (backlogQueue h ++ [tx]) h.

Definition try_enqueue_postVerification (tx : txBacklogMsg) (h : TxHandler)
    : TxHandler :=
  if chan_full (postVerificationQueue h)
  then inc_transactionMessagesDroppedFromPool h
  else set_postVerificationQueue (postVerificationQueue h ++ [tx]) h.

(** An item as the gossip path puts it on the backlog queue. *)
Definition fresh_item (tx : txBacklogMsg) : Prop :=
  is_Some (rawmsg tx) /\ verificationErr tx = None.

(** Several steps of the worker in a row, no other goroutine in between. *)
Fixpoint backlogWorker_run (choices : list SelectCase) (pc : WorkerPc)
    (h : TxHandler) : option (list WorkerEvent * (WorkerPc * TxHandler)) :=
  match choices with
  | [] => Some ([], (pc, h))
  | choice :: choices =>
      match backlogWorker_step choice pc h with
      | None => None
      | Some (ev, (pc', h')) =>
          match backlogWorker_run choices pc' h' with
          | None => None
          | Some (evs, s) => Some (ev :: evs, s)
          end
      end
  end.

(** An interleaving of worker steps and steps of the other goroutines. *)
Inductive Move :=
| Worker (choice : SelectCase)
| Env (a : EnvAction).

Fixpoint run_moves (moves : list Move) (pc : WorkerPc) (h : TxHandler)
    : option (WorkerPc * TxHandler) :=
  match moves with
  | [] => Some (pc, h)
  | Worker choice :: moves =>
      match backlogWorker_step choice pc h with
      | None => None
      | Some (_, (pc', h')) => run_moves moves pc' h'
      end
  | Env a :: moves =>
      match env_step a h with
      | None => None
      | Some h' => run_moves moves pc h'
      end
  end.

(** The shape of the queues in every state of a run: what waits for the
    filter or for verification is fresh, what waits for post-processing
    still has its raw message. *)
Definition queues_wf (h : TxHandler) : Prop :=
  Forall fresh_item (backlogQueue h) /\
  Forall fresh_item (txVerificationPool h) /\
  Forall (fun tx => is_Some (rawmsg tx)) (postVerificationQueue h).

(** The priority rule as the specification words it: whenever the
    post-verification queue holds an item, the next step of the dispatcher
    processes an item of that queue. *)
Definition result_queue_always_first : Prop :=
  forall pc h choice ev pc' h',
    reachable pc h ->
    postVerificationQueue h <> [] ->
    backlogWorker_step choice pc h = Some (ev, (pc', h')) ->
    exists wi, ev = EvResult wi.

(** The solicited path as the specification words it: a group that passes
    the fast-reject filter and verification is admitted and relayed. *)
Definition solicited_path_relays : Prop :=
  forall h g tx,
    checkAlreadyCommitted h (solicited_item g) = (tx, false) ->
    Forall (fun txn => verify_TxnPool txn (spec tx) (proto tx) = None)
      (unverifiedTxGroup tx) ->
    exists data wait except,
      net (fst (Handle h g)) = net h ++ [NetRelay TxnTag data wait except].

(** The three outcomes of the solicited handler as the specification words
    them: what [Handle] returns when the fast-reject filter already handled
    the group differs from what it returns for a group that is verified and
    admitted. *)
Definition solicited_noop_distinct : Prop :=
  forall h1 g1 h2 g2,
    snd (checkAlreadyCommitted h1 (solicited_item g1)) = true ->
    snd (processDecoded h2 g2) = false ->
    snd (Handle h1 g1) <> snd (Handle h2 g2).

End Handler.

(** ** A small instance of the collaborators

    Transactions are a payload number with a flag for the initialised
    caches; one byte encodes one transaction and [xff] does not decode.
    The verifier refuses payload 13.  The pool is the list of groups it
    remembers; it refuses a group it already holds and groups that contain
    payload 7.  The ledger is its latest round and has no header for
    round 0. *)
Module Toy.

Definition stxn := (nat * bool)%type.

Definition encode (t : stxn) : list byte :=
  match Byte.of_nat (fst t) with
  | Some b => [b]
  | None => []
  end.

Definition decode (d : list byte) : DecodeResult stxn :=
  match d with
  | [] => DecEOF
  | b :: rest =>
      if Byte.eqb b xff then DecErr "truncated record"
      else DecOk (Byte.to_nat b, false) rest
  end.

Definition payloads (g : list stxn) : list nat := map fst g.

Definition test (pool : list (list nat)) (g : list stxn) : option error :=
  if bool_decide (payloads g ∈ pool) then Some "duplicate" else None.

Definition remember (pool : list (list nat)) (g : list stxn)
    : list (list nat) * option error :=
  if bool_decide (payloads g ∈ pool) then (pool, Some "duplicate")
  else if bool_decide (7 ∈ payloads g) then (pool, Some "fee too low")
  else (pool ++ [payloads g], None).

Definition blockHdr (l : N) (r : N) : BlockHeader + error :=
  if N.eqb r 0 then inr "no header"
  else inl {| CurrentProtocol := "v1"; HdrFeeSink := [x01];
              HdrRewardsPool := [x02] |}.

Definition verify (t : stxn) (_ : SpecialAddresses) (_ : nat) : option error :=
  if Nat.eqb (fst t) 13 then Some "invalid signature" else None.

#[export] Instance collaborators : Collaborators := {|
  SignedTxn := stxn;
  SignedTxn_zero := (0, false);
  InitCaches := fun t => (fst t, true);
  ConsensusParams := nat;
  ConsensusParams_zero := 0;
  Consensus := fun v => String.length v;
  TxnTag := "TX";
  Encode := encode;
  Decode := decode;
  Peer := nat;
  TransactionPool := list (list nat);
  txPool_Test := test;
  txPool_Remember := remember;
  Ledger := N;
  ledger_Latest := fun l => l;
  ledger_BlockHdr := blockHdr;
  verify_Txn := verify;
  verify_TxnPool := verify
|}.

(** A handler on an empty pool at round 5, and three gossip messages. *)
Definition h0 : TxHandler := MakeTxHandler ([] : list (list nat)) 5%N.

Definition msg (sender : nat) (data : list byte) : IncomingMessage :=
  {| Sender := sender; MsgTag := "TX"; Data := data |}.

Definition msg_good : IncomingMessage := msg 1 [x01; x02].
Definition msg_other : IncomingMessage := msg 2 [x03].
Definition msg_badsig : IncomingMessage := msg 3 [x04; x0d; x05].
Definition msg_corrupt : IncomingMessage := msg 4 [x01; xff; x02].
Definition msg_empty : IncomingMessage := msg 5 [].

(** A run in which a verified item reaches the post-verification queue
    after the worker has passed its priority check: one message is
    delivered, filtered and handed to the pool; the worker checks the
    post-verification queue again, finds it empty and moves to the blocking
    select; only then the verification task finishes and a second message
    is delivered. *)
Definition race_moves : list Move :=
  [ Env (GossipMessage msg_good);
    Worker CaseDone;                 (* priority check: default branch *)
    Worker CaseBacklog;              (* takes msg_good, submits it *)
    Worker CaseDone;                 (* priority check: default branch *)
    Env (VerifyTaskRuns 0);          (* result arrives *)
    Env (GossipMessage msg_other) ]. (* new message arrives *)

Definition raced : TxHandler :=
  match run_moves race_moves PriorityCheck h0 with
  | Some (_, h) => h
  | None => h0
  end.

(** The two items that wait in [raced]. *)
Definition verified_good : txBacklogMsg :=
  {| rawmsg := Some msg_good; unverifiedTxGroup := [(1, true); (2, true)];
     proto := 2;
     spec := {| FeeSink := [x01]; RewardsPool := [x02] |};
     verificationErr := None |}.

Definition failed_badsig : txBacklogMsg :=
  {| rawmsg := Some msg_badsig;
     unverifiedTxGroup := [(4, true); (13, true); (5, true)];
     proto := 2;
     spec := {| FeeSink := [x01]; RewardsPool := [x02] |};
     verificationErr := Some "invalid signature" |}.

Definition pending_badsig : txBacklogMsg :=
  set_verificationErr None failed_badsig.

(** A solicited group and its item after the fast-reject filter. *)
Definition solicited_group : list SignedTxn := [(1, false); (2, false)].

(** A group of one transaction, payload 1. *)
Definition single : list SignedTxn := [(1, false)].

Definition solicited_checked : txBacklogMsg :=
  {| rawmsg := None; unverifiedTxGroup := [(1, true); (2, true)];
     proto := 2;
     spec := {| FeeSink := [x01]; RewardsPool := [x02] |};
     verificationErr := None |}.

(** A handler whose pool already holds the group of payload 1. *)
Definition h_dup : TxHandler := MakeTxHandler [[1]] 5%N.

(** A handler whose ledger has no header for its latest round. *)
Definition h_nohdr : TxHandler := MakeTxHandler ([] : list (list nat)) 0%N.

(** A handler whose post-verification queue is full. *)
Definition h_full : TxHandler :=
  set_postVerificationQueue (replicate txBacklogSize verified_good)
    (set_backlogQueue (replicate txBacklogSize (gossip_item msg_other [(3, false)]))
       h0).

End Toy.

(** ** Vocabulary of the further properties *)

Section PipelineVocabulary.
Context `{C : Collaborators}.

(** The number of relay calls in a log of network calls. *)
Fixpoint relay_count (calls : list NetCall) : nat :=
  match calls with
  | [] => 0
  | NetRelay _ _ _ _ :: calls => S (relay_count calls)
  | NetDisconnect _ :: calls => relay_count calls
  end.

(** The snapshot that the fast-reject filter takes from a header. *)
Definition snapshot_of (hdr : BlockHeader) (tx : txBacklogMsg) : txBacklogMsg :=
  set_snapshot (Consensus (CurrentProtocol hdr)) (HdrFeeSink hdr)
    (HdrRewardsPool hdr) tx.

(** The life of one gossip message on an otherwise idle handler: it is
    delivered, the worker passes its priority check and takes it from the
    backlog queue, the verification task runs, and the worker picks up the
    result.  The choice given to the worker matters only at the blocking
    select. *)
Definition one_message (m : IncomingMessage) : list Move :=
  [ Env (GossipMessage m);
    Worker CaseBacklog;
    Worker CaseBacklog;
    Env (VerifyTaskRuns 0);
    Worker CaseBacklog ].

End PipelineVocabulary.

(** Equality of bytes is decidable ([==] on byte arrays, bytes.Equal). *)
#[global] Instance byte_eq_decision : EqDecision byte := Byte.byte_eq_dec.

(** * Currency and round arithmetic (data/basics/units.go) *)

Module basics.

(** A uint64 is an [N] below [2^64]; a subtraction wraps around. *)
Definition uint64_modulus : N := (2 ^ 64)%N.

Definition is_uint64 (n : N) : Prop := (n < uint64_modulus)%N.

Definition uint64_sub (a b : N) : N :=
  ((a + uint64_modulus - b) mod uint64_modulus)%N.

Record MicroAlgos := { Raw : N }.

Definition LessThan (a b : MicroAlgos) : bool := (Raw a <? Raw b)%N.

Definition GreaterThan (a b : MicroAlgos) : bool := (Raw b <? Raw a)%N.

Definition IsZero (a : MicroAlgos) : bool := (Raw a =? 0)%N.

Definition ToUint64 (a : MicroAlgos) : N := Raw a.

(** [proto] enters only through its field RewardUnit.  [None] is the
    run-time panic of an integer division by zero. *)
Definition RewardUnits (a : MicroAlgos) (RewardUnit : N) : option N :=
  if (RewardUnit =? 0)%N then None else Some (Raw a / RewardUnit)%N.

(** crypto.OneTimeSignatureIdentifier *)
Record OneTimeSignatureIdentifier := { Batch : N; Offset : N }.

Definition OneTimeIDForRound (round : Round) (keyDilution : N)
    : option OneTimeSignatureIdentifier :=
  if (keyDilution =? 0)%N then None
  else Some {| Batch := (round / keyDilution)%N;
               Offset := (round mod keyDilution)%N |}.

Definition SubSaturate (round x : Round) : Round :=
  if (round <? x)%N then 0%N else uint64_sub round x.

End basics.

(** * Logic signatures (package transactions) *)

Module transactions.
Section LogicSig.

(** crypto.MultisigSig and its method Equal are outside the sources. *)
Context {MultisigSig : Type}.
Variable MultisigSig_Equal : MultisigSig -> MultisigSig -> bool.

Record LogicSig := {
  Logic : list byte;
  Sig : list byte;                 (* crypto.Signature, a byte array *)
  Msig : MultisigSig;
  Args : list (list byte)
}.

Definition Blank (lsig : LogicSig) : bool :=
  bool_decide (length (Logic lsig) = 0).

Definition Len (lsig : LogicSig) : nat :=
  fold_left (fun lsiglen arg => lsiglen + length arg) (Args lsig)
    (length (Logic lsig)).

(** The range loop of [Equal] from index [i] on.  [None] is the panic of
    [b.Args[i]] out of range. *)
Fixpoint Equal_loop (i : nat) (args bArgs : list (list byte)) : option bool :=
  match args with
  | [] => Some true
  | a :: args =>
      match bArgs !! i with
      | None => None
      | Some b' =>
          if bool_decide (a = b') then Equal_loop (S i) args bArgs
          else Some false
      end
  end.

Definition Equal (lsig b : LogicSig) : option bool :=
  if bool_decide (length (Logic lsig) = 0)
     && bool_decide (length (Logic b) = 0)
  then Some true
  else
    let sigs :=
      bool_decide (Sig lsig = Sig b)
      && MultisigSig_Equal (Msig lsig) (Msig b) in
    if negb sigs then Some false
    else if negb (bool_decide (length (Args lsig) = length (Args b)))
    then Some false
    else Equal_loop 0 (Args lsig) (Args b).

End LogicSig.
End transactions.

(** * The Ledger hardware-wallet driver (package driver) *)

Module driver.

Definition ledgerClass : byte := x80.
Definition ledgerInsGetPublicKey : byte := x03.
Definition ledgerInsSignPaymentV2 : byte := x04.
Definition ledgerInsSignKeyregV2 : byte := x05.
Definition ledgerInsSignMsgpack : byte := x08.
Definition ledgerP1first : byte := x00.
Definition ledgerP1more : byte := x80.
Definition ledgerP2last : byte := x00.
Definition ledgerP2more : byte := x80.

(** Go's conversions [byte(v)] and [uint8(n)]: the low eight bits. *)
Definition byte_of_N (n : N) : byte :=
  default x00 (Byte.of_N (n mod 256)%N).

Definition uint8 (n : nat) : byte := byte_of_N (N.of_nat n).

(** binary.LittleEndian.PutUint64 on an 8-byte buffer *)
Definition PutUint64 (v : N) : list byte :=
  [ byte_of_N v;
    byte_of_N (N.shiftr v 8);
    byte_of_N (N.shiftr v 16);
    byte_of_N (N.shiftr v 24);
    byte_of_N (N.shiftr v 32);
    byte_of_N (N.shiftr v 40);
    byte_of_N (N.shiftr v 48);
    byte_of_N (N.shiftr v 56) ].

Definition uint64le (i : N) : list byte := PutUint64 i.

(** The number that a little-endian byte string stands for
    (binary.LittleEndian.Uint64 on eight bytes). *)
Fixpoint le_uint (l : list byte) : N :=
  match l with
  | [] => 0%N
  | b :: l => (Byte.to_N b + 256 * le_uint l)%N
  end.

(** The builtin [copy(dst, src)]: the array [dst] after the call. *)
Definition copy (dst src : list byte) : list byte :=
  take (length dst) src ++ drop (length src) dst.

(** crypto.Signature is a 64-byte array, crypto.Digest and
    crypto.PublicKey are 32-byte arrays. *)
Definition Signature := list byte.
Definition Signature_zero : Signature := replicate 64 x00.
Definition Digest := list byte.
Definition Digest_zero : Digest := replicate 32 x00.
Definition PublicKey := list byte.

(** The error values of the driver: its three sentinels, the status word
    of the device (LedgerUSBError), and errors made from a message
    (errors.New, fmt.Errorf). *)
Inductive Error :=
| errNotSupported
| errMsigWrongKey
| errWalletNotFound
| LedgerUSBError (code : N)
| ErrorString (msg : string).

(** protocol.TxType *)
Inductive TxType :=
| PaymentTx
| KeyRegistrationTx
| OtherTx (name : string).

(** The fields of transactions.Transaction that the driver reads. *)
Record Transaction := {
  Type_ : TxType;
  Sender : Digest;
  Fee : basics.MicroAlgos;
  FirstValid : Round;
  LastValid : Round;
  Note : list byte;
  GenesisID : string;
  GenesisHash : Digest;
  Receiver : Digest;
  Amount : basics.MicroAlgos;
  CloseRemainderTo : Digest;
  VotePK : Digest;
  SelectionPK : Digest
}.

(** crypto.MultisigSubsig *)
Record MultisigSubsig := {
  Key : PublicKey;
  Sig : Signature
}.

(** LedgerUSBInfo *)
Record USBInfo_t := {
  Path : string;
  Manufacturer : string;
  Product : string;
  Serial : string
}.

Definition chunkSize : nat := 250.

(** One message of the msgpack signing request: the five-byte header and
    the chunk. *)
Definition apdu (p1 p2 : byte) (chunk : list byte) : list byte :=
  [ledgerClass; ledgerInsSignMsgpack; p1; p2; uint8 (length chunk)] ++ chunk.

(** The messages for a sequence of chunks: the first one carries [p1], the
    later ones [ledgerP1more]; the last one carries [ledgerP2last], the
    earlier ones [ledgerP2more]. *)
Fixpoint apdus (p1 : byte) (chunks : list (list byte)) : list (list byte) :=
  match chunks with
  | [] => []
  | [c] => [apdu p1 ledgerP2last c]
  | c :: cs => apdu p1 ledgerP2more c :: apdus ledgerP1more cs
  end.

(** [chunked l cs]: [cs] cuts [l] into full chunks followed by one last
    chunk that is not longer than a full one. *)
Inductive chunked : list byte -> list (list byte) -> Prop :=
| chunked_last l : length l <= chunkSize -> chunked l [l]
| chunked_more l cs :
    chunkSize < length l ->
    chunked (drop chunkSize l) cs ->
    chunked l (take chunkSize l :: cs).

(** What signing with the key [pk] does to one subsignature. *)
Definition signed_by (pk : PublicKey) (sig : Signature) (s : MultisigSubsig)
    : MultisigSubsig :=
  if decide (Key s = pk) then {| Key := Key s; Sig := sig |} else s.

Section Driver.

(** The USB device and the codec are outside the sources.  [Exchange]
    sends one message to the device and returns the device after the
    exchange, the reply and the error. *)
Context {Dev : Type}.
Variable Exchange : Dev -> list byte -> Dev * list byte * option Error.
Variable USBInfo : Dev -> USBInfo_t.
Variable EncodeTx : Transaction -> list byte.
Variable EncodeSignedTxn : Transaction -> Signature -> list byte.

(** What a crypto.MultisigSig holds besides its subsignatures. *)
Context {MsigHeader : Type}.

Record MultisigSig := {
  msig_header : MsigHeader;
  Subsigs : list MultisigSubsig
}.

(** A wallet is its device, together with the messages that were sent to
    the device so far, oldest first. *)
Record LedgerWallet := {
  dev : Dev;
  exchanged : list (list byte)
}.

Definition dev_Exchange (lw : LedgerWallet) (msg : list byte)
    : LedgerWallet * list byte * option Error :=
  let '(d, reply, err) := Exchange (dev lw) msg in
  ({| dev := d; exchanged := exchanged lw ++ [msg] |}, reply, err).

(** ** LedgerWalletDriver *)

Record LedgerWalletDriver := {
  wallets : gmap string LedgerWallet     (* a nil map is the empty map *)
}.

Definition FetchWallet (lwd : LedgerWalletDriver) (id : list byte)
    : LedgerWallet + Error :=
  match wallets lwd !! String.string_of_list_byte id with
  | None => inr errWalletNotFound
  | Some lw => inl lw
  end.

(** [enumerated] is what LedgerEnumerate returns. *)
Definition InitWithConfig (lwd : LedgerWalletDriver)
    (enumerated : list Dev + Error) : LedgerWalletDriver * option Error :=
  match enumerated with
  | inr err => (lwd, Some err)
  | inl devs =>
      ({| wallets :=
            fold_left
              (fun wallets d =>
                 <[Path (USBInfo d) := {| dev := d; exchanged := [] |}]> wallets)
              devs ∅ |},
       None)
  end.

(** ** LedgerWallet *)

Definition ListKeys (lw : LedgerWallet)
    : LedgerWallet * (list Digest + Error) :=
  let '(lw, reply, err) :=
    dev_Exchange lw [ledgerClass; ledgerInsGetPublicKey; x00; x00; x00] in
  match err with
  | Some err => (lw, inr err)
  | None => (lw, inl [copy Digest_zero reply])
  end.

(** The loop of [sendTransactionMsgpack]; [None] when the fuel is used up. *)
Fixpoint sendTransactionMsgpack_loop (fuel : nat) (lw : LedgerWallet)
    (tosend : list byte) (p1 p2 : byte) (reply : list byte)
    : option (LedgerWallet * list byte * option Error) :=
  match fuel with
  | 0 => None
  | S fuel =>
      if Byte.eqb p2 ledgerP2last then Some (lw, reply, None)
      else
        let '(chunk, p2) :=
          if decide (chunkSize < length tosend)
          then (take chunkSize tosend, p2)
          else (tosend, ledgerP2last) in
        let msg :=
          [ledgerClass; ledgerInsSignMsgpack; p1; p2; uint8 (length chunk)]
            ++ chunk in
        let '(lw, reply, err) := dev_Exchange lw msg in
        match err with
        | Some err => Some (lw, reply, Some err)
        | None =>
            sendTransactionMsgpack_loop fuel lw (drop (length chunk) tosend)
              ledgerP1more p2 reply
        end
  end.

Definition sendTransactionMsgpack (lw : LedgerWallet) (tx : Transaction)
    : option (LedgerWallet * Signature * option Error) :=
  let tosend := EncodeTx tx in
  match sendTransactionMsgpack_loop (S (S (length tosend))) lw tosend
          ledgerP1first ledgerP2more [] with
  | None => None
  | Some (lw, reply, Some err) => Some (lw, Signature_zero, Some err)
  | Some (lw, reply, None) =>
      if decide (length Signature_zero < length reply)
      then
        let errmsg :=
          String.string_of_list_byte (drop (length Signature_zero + 1) reply) in
        Some (lw, Signature_zero, Some (ErrorString errmsg))
      else Some (lw, copy Signature_zero reply, None)
  end.

Definition sendTransactionOldStyle (lw : LedgerWallet) (tx : Transaction)
    : LedgerWallet * Signature * option Error :=
  let msg := [ledgerClass] in
  let ins :=
    match Type_ tx with
    | PaymentTx => inl (msg ++ [ledgerInsSignPaymentV2])
    | KeyRegistrationTx => inl (msg ++ [ledgerInsSignKeyregV2])
    | OtherTx name =>
        inr (ErrorString ("transaction type " +:+ name +:+ " not supported"))
    end in
  match ins with
  | inr err => (lw, Signature_zero, Some err)
  | inl msg =>
      if negb (bool_decide (length (Note tx) = 0))
      then (lw, Signature_zero,
            Some (ErrorString "transaction notes not supported"))
      else
        let msg := msg ++ Sender tx in
        let msg := msg ++ uint64le (basics.Raw (Fee tx)) in
        let msg := msg ++ uint64le (FirstValid tx) in
        let msg := msg ++ uint64le (LastValid tx) in
        let genbuf := replicate 32 x00 in
        if decide (length genbuf < String.length (GenesisID tx))
        then (lw, Signature_zero,
              Some (ErrorString
                      ("genesis ID " +:+ GenesisID tx +:+ " too long ("
                         +:+ pretty (String.length (GenesisID tx)) +:+ ")")))
        else
          let genbuf := copy genbuf (String.list_byte_of_string (GenesisID tx)) in
          let msg := msg ++ genbuf in
          let msg := msg ++ GenesisHash tx in
          let msg :=
            match Type_ tx with
            | PaymentTx =>
                let msg := msg ++ Receiver tx in
                let msg := msg ++ uint64le (basics.Raw (Amount tx)) in
                msg ++ CloseRemainderTo tx
            | KeyRegistrationTx =>
                let msg := msg ++ VotePK tx in
                msg ++ SelectionPK tx
            | OtherTx _ => msg
            end in
          let '(lw, reply, err) := dev_Exchange lw msg in
          match err with
          | Some err => (lw, Signature_zero, Some err)
          | None => (lw, copy Signature_zero reply, None)
          end
  end.

(** The mutex of the wallet serialises the callers and is left out. *)
Definition signTransactionHelper (lw : LedgerWallet) (tx : Transaction)
    : option (LedgerWallet * Signature * option Error) :=
  match sendTransactionMsgpack lw tx with
  | None => None
  | Some (lw, sig, None) => Some (lw, sig, None)
  | Some (lw, sig, Some err) =>
      match err with
      | LedgerUSBError code =>
          if (code =? 0x6d00)%N
          then Some (sendTransactionOldStyle lw tx)
          else Some (lw, sig, Some err)
      | _ => Some (lw, sig, Some err)
      end
  end.

Definition signProgramHelper (lw : LedgerWallet) (data : list byte)
    : LedgerWallet * Signature * option Error :=
  (lw, Signature_zero,
   Some (ErrorString "signing programs not yet implemented for ledger wallet")).

Definition SignTransaction (lw : LedgerWallet) (tx : Transaction)
    : option (LedgerWallet * (list byte + Error)) :=
  match signTransactionHelper lw tx with
  | None => None
  | Some (lw, sig, Some err) => Some (lw, inr err)
  | Some (lw, sig, None) => Some (lw, inl (EncodeSignedTxn tx sig))
  end.

Definition SignProgram (lw : LedgerWallet) (data : list byte)
    : LedgerWallet * (list byte + Error) :=
  let '(lw, sig, err) := signProgramHelper lw data in
  match err with
  | Some err => (lw, inr err)
  | None => (lw, inl sig)
  end.

(** The first loop of the two multisignature functions, from index [i]
    on; [n] bounds the number of iterations left. *)
Fixpoint isValidKey_loop (n i : nat) (pk : PublicKey)
    (subsigs : list MultisigSubsig) : bool :=
  match n with
  | 0 => false
  | S n =>
      match subsigs !! i with
      | None => false                       (* i < len fails *)
      | Some subsig =>
          if decide (Key subsig = pk) then true
          else isValidKey_loop n (S i) pk subsigs
      end
  end.

(** The second loop: the subsignatures are updated in place. *)
Fixpoint setSig_loop (n i : nat) (pk : PublicKey) (sig : Signature)
    (subsigs : list MultisigSubsig) : list MultisigSubsig :=
  match n with
  | 0 => subsigs
  | S n =>
      match subsigs !! i with
      | None => subsigs
      | Some subsig =>
          let subsigs :=
            if decide (Key subsig = pk)
            then <[i := {| Key := Key subsig; Sig := sig |}]> subsigs
            else subsigs in
          setSig_loop n (S i) pk sig subsigs
      end
  end.

Definition MultisigSignTransaction (lw : LedgerWallet) (tx : Transaction)
    (pk : PublicKey) (partial : MultisigSig)
    : option (LedgerWallet * MultisigSig * option Error) :=
  let isValidKey :=
    isValidKey_loop (length (Subsigs partial)) 0 pk (Subsigs partial) in
  if negb isValidKey then Some (lw, partial, Some errMsigWrongKey)
  else
    match signTransactionHelper lw tx with
    | None => None
    | Some (lw, sig, Some err) => Some (lw, partial, Some err)
    | Some (lw, sig, None) =>
        Some (lw,
              {| msig_header := msig_header partial;
                 Subsigs :=
                   setSig_loop (length (Subsigs partial)) 0 pk sig
                     (Subsigs partial) |},
              None)
    end.

Definition MultisigSignProgram (lw : LedgerWallet) (data : list byte)
    (pk : PublicKey) (partial : MultisigSig)
    : LedgerWallet * MultisigSig * option Error :=
  let isValidKey :=
    isValidKey_loop (length (Subsigs partial)) 0 pk (Subsigs partial) in
  if negb isValidKey then (lw, partial, Some errMsigWrongKey)
  else
    let '(lw, sig, err) := signProgramHelper lw data in
    match err with
    | Some err => (lw, partial, Some err)
    | None =>
        (lw,
         {| msig_header := msig_header partial;
            Subsigs :=
              setSig_loop (length (Subsigs partial)) 0 pk sig
                (Subsigs partial) |},
         None)
    end.

End Driver.
End driver.

(** * Small instances for the further properties *)

Module Examples.

#[local] Existing Instance Toy.collaborators.

(** A message whose group the pool of [Toy.h_dup] already holds, a
    verified item that the toy pool refuses (payload 7), and a solicited
    group whose second transaction the verifier refuses. *)
Definition msg_dup : @IncomingMessage Toy.collaborators := Toy.msg 6 [x01].

Definition verified_feelow : @txBacklogMsg Toy.collaborators :=
  {| rawmsg := Some (Toy.msg 7 [x07]); unverifiedTxGroup := [(7, true)];
     proto := 2;
     spec := {| FeeSink := [x01]; RewardsPool := [x02] |};
     verificationErr := None |}.

Definition solicited_bad : list (@SignedTxn Toy.collaborators) :=
  [(1, false); (13, false); (2, false)].

Definition solicited_bad_checked : @txBacklogMsg Toy.collaborators :=
  {| rawmsg := None;
     unverifiedTxGroup := [(1, true); (13, true); (2, true)];
     proto := 2;
     spec := {| FeeSink := [x01]; RewardsPool := [x02] |};
     verificationErr := None |}.

Definition hdr : BlockHeader :=
  {| CurrentProtocol := "v1"; HdrFeeSink := [x01]; HdrRewardsPool := [x02] |}.

(** The handler after one good message went through, and after Stop. *)
Definition relayed : @TxHandler Toy.collaborators :=
  match run_moves (one_message Toy.msg_good) PriorityCheck Toy.h0 with
  | Some (_, h) => h
  | None => Toy.h0
  end.

Definition stop_moves : list (@Move Toy.collaborators) :=
  [Env StopCalled; Worker CaseDone; Worker CaseDone].

Definition stopped : @TxHandler Toy.collaborators :=
  set_ctxDone true Toy.h0.

(** A device that counts its exchanges and answers every message with 64
    bytes 07; a device of the old kind that refuses the msgpack
    instruction with status 0x6d00 and answers other messages with 64
    bytes 09. *)
Definition exchange_ok (d : nat) (msg : list byte)
    : nat * list byte * option driver.Error :=
  (S d, replicate 64 x07, None).

Definition exchange_old (d : nat) (msg : list byte)
    : nat * list byte * option driver.Error :=
  match msg !! 1 with
  | Some x08 => (S d, [], Some (driver.LedgerUSBError 0x6d00))
  | _ => (S d, replicate 64 x09, None)
  end.

Definition usbinfo (d : nat) : driver.USBInfo_t :=
  {| driver.Path := pretty d; driver.Manufacturer := "Ledger";
     driver.Product := "Nano S"; driver.Serial := "0001" |}.

Definition payment : driver.Transaction :=
  {| driver.Type_ := driver.PaymentTx;
     driver.Sender := replicate 32 x01;
     driver.Fee := {| basics.Raw := 1000 |};
     driver.FirstValid := 10%N;
     driver.LastValid := 20%N;
     driver.Note := [];
     driver.GenesisID := "testnet-v1.0";
     driver.GenesisHash := replicate 32 x02;
     driver.Receiver := replicate 32 x03;
     driver.Amount := {| basics.Raw := 5 |};
     driver.CloseRemainderTo := replicate 32 x00;
     driver.VotePK := replicate 32 x00;
     driver.SelectionPK := replicate 32 x00 |}.

Definition with_note : driver.Transaction :=
  {| driver.Type_ := driver.PaymentTx;
     driver.Sender := replicate 32 x01;
     driver.Fee := {| basics.Raw := 1000 |};
     driver.FirstValid := 10%N;
     driver.LastValid := 20%N;
     driver.Note := [x01];
     driver.GenesisID := "testnet-v1.0";
     driver.GenesisHash := replicate 32 x02;
     driver.Receiver := replicate 32 x03;
     driver.Amount := {| basics.Raw := 5 |};
     driver.CloseRemainderTo := replicate 32 x00;
     driver.VotePK := replicate 32 x00;
     driver.SelectionPK := replicate 32 x00 |}.

(** The encoding of the toy codec: the sender followed by the note. *)
Definition encodeTx (tx : driver.Transaction) : list byte :=
  driver.Sender tx ++ driver.Note tx.

Definition wallet : driver.LedgerWallet (Dev := nat) :=
  {| driver.dev := 0; driver.exchanged := [] |}.

Definition key_a : driver.PublicKey := replicate 32 x0a.
Definition key_b : driver.PublicKey := replicate 32 x0b.

Definition partial : driver.MultisigSig (MsigHeader := unit) :=
  {| driver.msig_header := tt;
     driver.Subsigs :=
       [ {| driver.Key := key_a; driver.Sig := driver.Signature_zero |};
         {| driver.Key := key_b; driver.Sig := driver.Signature_zero |} ] |}.

(** Two logic signatures with different programs and the same signature
    and arguments; multisignatures are compared as units. *)
Definition lsig_one : transactions.LogicSig (MultisigSig := unit) :=
  {| transactions.Logic := [x01; x20]; transactions.Sig := [x07];
     transactions.Msig := tt; transactions.Args := [[x01]; [x02; x03]] |}.

Definition lsig_two : transactions.LogicSig (MultisigSig := unit) :=
  {| transactions.Logic := [x02]; transactions.Sig := [x07];
     transactions.Msig := tt; transactions.Args := [[x01]; [x02; x03]] |}.

Definition unit_Equal (_ _ : unit) : bool := true.

End Examples.

(** * Properties *)

Section Properties.
Context `{C : Collaborators}.

(** ** Records and queues *)

Lemma bytes_Join_nil (s : list (list byte)) : bytes_Join s [] = concat s.
Proof.
  induction s as [|x [|y s] IH]; simpl in *.
  - reflexivity.
  - symmetry. apply app_nil_r.
  - now rewrite IH.
Qed.

Lemma fold_left_snoc {A B} (f : A -> B) (l : list A) (acc : list B) :
  fold_left (fun result x => result ++ [f x]) l acc = acc ++ map f l.
Proof.
  revert acc. induction l as [|x l IH]; intros acc; simpl.
  - now rewrite app_nil_r.
  - rewrite IH, <- app_assoc. reflexivity.
Qed.

(** [reencode] is the concatenation of the encodings, in order. *)
Lemma reencode_concat (stxns : list SignedTxn) :
  reencode stxns = concat (map Encode stxns).
Proof.
  unfold reencode. rewrite fold_left_snoc. simpl. apply bytes_Join_nil.
Qed.

Lemma reencode_app (l1 l2 : list SignedTxn) :
  reencode (l1 ++ l2) = reencode l1 ++ reencode l2.
Proof. rewrite !reencode_concat, map_app. apply concat_app. Qed.

(** ** postprocessCheckedTxn *)

(** C2: an item without verification error whose group the pool admits
    leads to exactly one call on the network, a relay of the re-encoded
    group (the encodings of its transactions concatenated in order) that
    excludes the sender of the item; the raw bytes of the inbound message
    play no part in it. *)
Theorem postprocess_relays_reencoded
    (handler : TxHandler) (wi : txBacklogMsg) (m : IncomingMessage)
    (pool' : TransactionPool) :
  verificationErr wi = None ->
  rawmsg wi = Some m ->
  txPool_Remember (txPool handler) (unverifiedTxGroup wi) = (pool', None) ->
  exists handler',
    postprocessCheckedTxn handler wi = Some handler' /\
    net handler' =
      net handler
        ++ [NetRelay TxnTag (concat (map Encode (unverifiedTxGroup wi)))
              false (Sender m)] /\
    txPool handler' = pool' /\
    transactionMessagesHandled handler' =
      S (transactionMessagesHandled handler) /\
    forall data',
      postprocessCheckedTxn handler
        {| rawmsg := Some {| Sender := Sender m; MsgTag := MsgTag m;
                             Data := data' |};
           unverifiedTxGroup := unverifiedTxGroup wi;
           proto := proto wi; spec := spec wi;
           verificationErr := verificationErr wi |} = Some handler'.
Proof.
  intros Herr Hraw Hrem.
  eexists. split.
  - unfold postprocessCheckedTxn. rewrite Herr, Hraw. simpl.
    rewrite Hrem. reflexivity.
  - split; [simpl; now rewrite reencode_concat|].
    repeat split.
    intros data'. unfold postprocessCheckedTxn. simpl.
    rewrite Herr, Hrem. reflexivity.
Qed.

(** C3: an item with a verification error makes the handler disconnect the
    sender and nothing else: the pool is not asked to remember the group,
    nothing is relayed, and the handled counter keeps its value. *)
Theorem postprocess_error_disconnects
    (handler : TxHandler) (wi : txBacklogMsg) (m : IncomingMessage)
    (e : error) :
  verificationErr wi = Some e ->
  rawmsg wi = Some m ->
  exists handler',
    postprocessCheckedTxn handler wi = Some handler' /\
    net handler' = net handler ++ [NetDisconnect (Sender m)] /\
    txPool handler' = txPool handler /\
    transactionMessagesHandled handler' = transactionMessagesHandled handler /\
    handler' = set_net (net handler') handler.
Proof.
  intros Herr Hraw. unfold postprocessCheckedTxn. rewrite Herr, Hraw.
  eexists. split; [reflexivity|]. repeat split; reflexivity.
Qed.

(** ** checkAlreadyCommitted *)

(** C9: the filter answers "stop" when the pool's test refuses the group and
    when the ledger has no header for its latest round; its only results
    are the item and a boolean, so no error travels upward.  In the one
    remaining case it answers "continue" and the item carries the consensus
    parameters, fee sink and rewards pool of the latest header. *)
Theorem checkAlreadyCommitted_outcomes
    (handler : TxHandler) (tx : txBacklogMsg) :
  let group := map InitCaches (unverifiedTxGroup tx) in
  let latest := ledger_Latest (ledger handler) in
  let r := checkAlreadyCommitted handler tx in
  (forall e, txPool_Test (txPool handler) group = Some e -> snd r = true) /\
  (forall e,
     txPool_Test (txPool handler) group = None ->
     ledger_BlockHdr (ledger handler) latest = inr e ->
     snd r = true) /\
  (forall latestHdr,
     txPool_Test (txPool handler) group = None ->
     ledger_BlockHdr (ledger handler) latest = inl latestHdr ->
     snd r = false /\
     proto (fst r) = Consensus (CurrentProtocol latestHdr) /\
     FeeSink (spec (fst r)) = HdrFeeSink latestHdr /\
     RewardsPool (spec (fst r)) = HdrRewardsPool latestHdr).
Proof.
  unfold checkAlreadyCommitted. simpl. split; [|split].
  - intros e ->. reflexivity.
  - intros e -> ->. reflexivity.
  - intros latestHdr -> ->. repeat split.
Qed.

(** C10: the filter never touches the raw message or the verification error
    of the item.  When it answers "stop" the snapshot fields are as before;
    when it answers "continue" they are the ones of the latest header. *)
Theorem checkAlreadyCommitted_frame
    (handler : TxHandler) (tx : txBacklogMsg) :
  let r := checkAlreadyCommitted handler tx in
  rawmsg (fst r) = rawmsg tx /\
  verificationErr (fst r) = verificationErr tx /\
  (snd r = true -> proto (fst r) = proto tx /\ spec (fst r) = spec tx) /\
  (snd r = false ->
     exists latestHdr,
       ledger_BlockHdr (ledger handler) (ledger_Latest (ledger handler))
         = inl latestHdr /\
       proto (fst r) = Consensus (CurrentProtocol latestHdr) /\
       spec (fst r) =
         {| FeeSink := HdrFeeSink latestHdr;
            RewardsPool := HdrRewardsPool latestHdr |}).
Proof.
  unfold checkAlreadyCommitted. simpl.
  destruct (txPool_Test _ _) as [e|]; simpl.
  - repeat split; auto. discriminate.
  - destruct (ledger_BlockHdr _ _) as [hdr|e]; simpl.
    + repeat split; try discriminate. intros _. exists hdr. auto.
    + repeat split; auto. discriminate.
Qed.

(** The group itself is the one part of the item that the filter rewrites
    on every outcome: each transaction gets its caches initialised. *)
Lemma checkAlreadyCommitted_group (handler : TxHandler) (tx : txBacklogMsg) :
  unverifiedTxGroup (fst (checkAlreadyCommitted handler tx))
  = map InitCaches (unverifiedTxGroup tx).
Proof.
  unfold checkAlreadyCommitted. simpl.
  destruct (txPool_Test _ _); [reflexivity|].
  destruct (ledger_BlockHdr _ _); reflexivity.
Qed.

(** ** asyncVerifySignature *)

Lemma first_failure_cons (check : SignedTxn -> option error) x l checked err :
  check x = None ->
  first_failure check l checked err ->
  first_failure check (x :: l) (x :: checked) err.
Proof.
  intros Hx Hff. inversion Hff; subst.
  - apply ff_all_pass. now constructor.
  - apply (ff_fails check (x :: pre) txn post e); [now constructor | assumption].
Qed.

Lemma set_verificationErr_same (tx : txBacklogMsg) :
  set_verificationErr (verificationErr tx) tx = tx.
Proof. now destruct tx. Qed.

Lemma asyncVerifySignature_loop_spec (txns : list SignedTxn) :
  forall (tx : txBacklogMsg) (calls : list VerifyCall),
    verificationErr tx = None ->
    exists checked err,
      first_failure (fun txn => verify_Txn txn (spec tx) (proto tx))
        txns checked err /\
      asyncVerifySignature_loop txns tx calls
      = (set_verificationErr err tx, calls ++ map (call_with tx) checked).
Proof.
  induction txns as [|txn rest IH]; intros tx calls Hnone.
  - exists [], None. split; [apply ff_all_pass; constructor|].
    simpl. rewrite app_nil_r, <- Hnone, set_verificationErr_same. reflexivity.
  - simpl. destruct (verify_Txn txn (spec tx) (proto tx)) as [e|] eqn:Hv.
    + exists [txn], (Some e). split; [|reflexivity].
      apply (ff_fails _ [] txn rest e); [constructor | assumption].
    + destruct (IH (set_verificationErr None tx)
                  (calls ++ [call_with tx txn]) eq_refl)
        as (checked & err & Hff & Heq).
      exists (txn :: checked), err. split.
      * now apply first_failure_cons.
      * unfold call_with in *. simpl in *. rewrite Heq, <- app_assoc.
        reflexivity.
Qed.

(** C8: the verification task checks the transactions of the group in
    order with verify.Txn and stops at the first one that fails; the item
    then carries the error of that transaction, or none when all passed.
    The task then tries once to put the item on the post-verification
    queue: with room the item is appended, on a full queue the item is
    dropped and the dropped-from-pool counter goes up by one.  Nothing else
    of the handler changes. *)
Theorem asyncVerifySignature_spec (handler : TxHandler) (tx : txBacklogMsg) :
  verificationErr tx = None ->
  exists checked err,
    let tx' := set_verificationErr err tx in
    let handler' := asyncVerifySignature handler tx in
    first_failure (fun txn => verify_Txn txn (spec tx) (proto tx))
      (unverifiedTxGroup tx) checked err /\
    verifyCalls handler' = verifyCalls handler ++ map (call_with tx) checked /\
    (length (postVerificationQueue handler) < txBacklogSize ->
       postVerificationQueue handler' = postVerificationQueue handler ++ [tx'] /\
       transactionMessagesDroppedFromPool handler'
       = transactionMessagesDroppedFromPool handler) /\
    (txBacklogSize <= length (postVerificationQueue handler) ->
       postVerificationQueue handler' = postVerificationQueue handler /\
       transactionMessagesDroppedFromPool handler'
       = S (transactionMessagesDroppedFromPool handler)) /\
    handler' =
      try_enqueue_postVerification tx'
        (set_verifyCalls (verifyCalls handler ++ map (call_with tx) checked)
           handler).
Proof.
  intros Hnone.
  destruct (asyncVerifySignature_loop_spec (unverifiedTxGroup tx) tx
              (verifyCalls handler) Hnone) as (checked & err & Hff & Heq).
  exists checked, err. simpl. split; [assumption|].
  unfold asyncVerifySignature, try_enqueue_postVerification.
  rewrite Heq. simpl. unfold chan_full.
  case_bool_decide as Hfull; simpl; repeat split; try reflexivity; lia.
Qed.

(** ** processIncomingTxn *)

(** Growing the slice when it is full keeps the decoded prefix and leaves
    room for the next record. *)
Lemma grow_slice (ntx : nat) (group : list SignedTxn) :
  ntx <= length group ->
  0 < length group ->
  let group1 :=
    if decide (length group = ntx)
    then group ++ replicate (length group * 2 - length group) SignedTxn_zero
    else group in
  ntx < length group1 /\ take ntx group1 = take ntx group.
Proof.
  intros Hle Hpos. simpl. case_decide as Hfull.
  - split.
    + rewrite length_app, length_replicate. lia.
    + now apply take_app_le.
  - split; [lia | reflexivity].
Qed.

(** The decode loop against [decodes]: a stream that ends in an error gives
    the early return; a stream that ends cleanly leaves the loop with the
    decoded records, in order, in the first [ntx] slots of the slice. *)
Lemma decode_loop_spec (Hprog : decoder_progresses) d recs fin :
  decodes d recs fin ->
  forall fuel ntx group,
    length d < fuel ->
    ntx <= length group ->
    0 < length group ->
    match fin with
    | EndErr _ =>
        decode_loop fuel d ntx group = Some (inl {| Action := Disconnect |})
    | EndEOF =>
        exists group',
          decode_loop fuel d ntx group
          = Some (inr (ntx + length recs, group')) /\
          take (ntx + length recs) group' = take ntx group ++ recs
    end.
Proof.
  induction 1 as [d Hd | d e Hd | d v rest recs fin Hd Hrest IH];
    intros fuel ntx group Hfuel Hle Hpos;
    (destruct fuel as [|fuel]; [lia|]);
    destruct (grow_slice ntx group Hle Hpos) as [Hroom Htake];
    simpl in *; rewrite Hd.
  - rewrite Nat.add_0_r, app_nil_r.
    eexists. split; [reflexivity | exact Htake].
  - reflexivity.
  - set (group1 := if decide (length group = ntx) then _ else group) in *.
    assert (Hstep : take (S ntx) (<[ntx := v]> group1) = take ntx group ++ [v]).
    { rewrite (take_S_r _ _ v) by now apply list_lookup_insert_eq.
      rewrite take_insert_ge by lia. now rewrite Htake. }
    specialize (IH fuel (S ntx) (<[ntx := v]> group1)).
    rewrite length_insert in IH.
    pose proof (Hprog d v rest Hd) as Hlt.
    specialize (IH ltac:(lia) ltac:(lia) ltac:(lia)).
    destruct fin as [|e]; [|exact IH].
    destruct IH as (group' & Hloop & Hgroup').
    exists group'. rewrite Hloop.
    replace (ntx + S (length recs)) with (S ntx + length recs) by lia.
    split; [reflexivity|].
    rewrite Hgroup', Hstep, <- app_assoc. reflexivity.
Qed.

(** A stream that ends cleanly is decoded into the group of its records. *)
Lemma processIncomingTxn_decoded (Hprog : decoder_progresses)
    (handler : TxHandler) (m : IncomingMessage) (recs : list SignedTxn) :
  decodes (Data m) recs EndEOF ->
  processIncomingTxn handler m =
    if decide (length recs = 0)
    then Some (handler, {| Action := Disconnect |})
    else Some (try_enqueue_backlog (gossip_item m recs) handler,
               {| Action := Ignore |}).
Proof.
  intros Hdec. unfold processIncomingTxn.
  destruct (decode_loop_spec Hprog _ _ _ Hdec (S (length (Data m))) 0
              (replicate 1 SignedTxn_zero))
    as (group' & Hloop & Hgroup'); [lia | simpl; lia | simpl; lia |].
  rewrite Hloop. simpl in Hgroup'. simpl. rewrite Hgroup'.
  destruct (decide (length recs = 0)); reflexivity.
Qed.

(** With a decoder that makes progress every stream ends, so the decode
    loop never runs out of fuel and the handler always answers. *)
Lemma decodes_total (Hprog : decoder_progresses) (d : list byte) :
  exists recs fin, decodes d recs fin.
Proof.
  remember (length d) as n eqn:Hn. revert d Hn.
  induction n as [n IH] using lt_wf_ind. intros d ->.
  destruct (Decode d) as [|e|v rest] eqn:Hd.
  - exists [], EndEOF. now apply decodes_eof.
  - exists [], (EndErr e). now apply decodes_err.
  - destruct (IH (length rest) (Hprog d v rest Hd) rest eq_refl)
      as (recs & fin & Hrest).
    exists (v :: recs), fin. eapply decodes_ok; eassumption.
Qed.

Lemma processIncomingTxn_total (Hprog : decoder_progresses)
    (handler : TxHandler) (m : IncomingMessage) :
  is_Some (processIncomingTxn handler m).
Proof.
  destruct (decodes_total Hprog (Data m)) as (recs & [|e] & Hdec).
  - rewrite (processIncomingTxn_decoded Hprog handler m recs Hdec).
    destruct (decide (length recs = 0)); eauto.
  - unfold processIncomingTxn.
    rewrite (decode_loop_spec Hprog _ _ _ Hdec (S (length (Data m))) 0
               (replicate 1 SignedTxn_zero)); simpl; [eauto | lia..].
Qed.

(** C6: a message that decodes to no transaction at all, or in which some
    record fails to decode before the end of the stream, gets the
    disconnect answer, and the handler is left as it was: nothing is put
    on the backlog queue, whatever was decoded before the failure is
    dropped. *)
Theorem processIncomingTxn_rejects (Hprog : decoder_progresses)
    (handler : TxHandler) (m : IncomingMessage) :
  decodes (Data m) [] EndEOF \/
  (exists recs e, decodes (Data m) recs (EndErr e)) ->
  processIncomingTxn handler m = Some (handler, {| Action := Disconnect |}) /\
  forall handler' out,
    processIncomingTxn handler m = Some (handler', out) ->
    Action out = Disconnect /\ backlogQueue handler' = backlogQueue handler.
Proof.
  intros Hbad.
  assert (Heq : processIncomingTxn handler m
                = Some (handler, {| Action := Disconnect |})).
  { destruct Hbad as [Hempty | (recs & e & Herr)].
    - now rewrite (processIncomingTxn_decoded Hprog handler m [] Hempty).
    - unfold processIncomingTxn.
      rewrite (decode_loop_spec Hprog _ _ _ Herr (S (length (Data m))) 0
                 (replicate 1 SignedTxn_zero)); simpl; [reflexivity | lia..]. }
  split; [exact Heq|].
  intros handler' out Hres. rewrite Heq in Hres.
  injection Hres as <- <-. split; reflexivity.
Qed.

(** C7: a message that decodes cleanly into at least one transaction gets
    the ignore answer in either case of the non-blocking send: with room
    the new item is appended to the backlog queue, on a full queue the item
    is dropped and the dropped-from-backlog counter goes up by one. *)
Theorem processIncomingTxn_enqueues (Hprog : decoder_progresses)
    (handler : TxHandler) (m : IncomingMessage) (recs : list SignedTxn) :
  decodes (Data m) recs EndEOF ->
  recs <> [] ->
  exists handler',
    processIncomingTxn handler m = Some (handler', {| Action := Ignore |}) /\
    (length (backlogQueue handler) < txBacklogSize ->
       backlogQueue handler' = backlogQueue handler ++ [gossip_item m recs] /\
       transactionMessagesDroppedFromBacklog handler'
       = transactionMessagesDroppedFromBacklog handler) /\
    (txBacklogSize <= length (backlogQueue handler) ->
       backlogQueue handler' = backlogQueue handler /\
       transactionMessagesDroppedFromBacklog handler'
       = S (transactionMessagesDroppedFromBacklog handler)) /\
    handler' = try_enqueue_backlog (gossip_item m recs) handler.
Proof.
  intros Hdec Hne.
  exists (try_enqueue_backlog (gossip_item m recs) handler).
  rewrite (processIncomingTxn_decoded Hprog handler m recs Hdec).
  destruct (decide (length recs = 0)) as [Hz|_].
  { destruct recs; [congruence | discriminate]. }
  split; [reflexivity|].
  unfold try_enqueue_backlog, chan_full.
  case_bool_decide as Hfull; simpl; repeat split; try reflexivity; lia.
Qed.

(** ** The solicited path *)

Lemma processDecoded_loop_spec (txns : list SignedTxn) (tx : txBacklogMsg) :
  forall calls : list VerifyCall,
    exists checked err,
      first_failure (fun txn => verify_TxnPool txn (spec tx) (proto tx))
        txns checked err /\
      processDecoded_loop txns tx calls
      = (err, calls ++ map (call_with tx) checked).
Proof.
  induction txns as [|txn rest IH]; intros calls.
  - exists [], None. split; [apply ff_all_pass; constructor|].
    simpl. now rewrite app_nil_r.
  - simpl. destruct (verify_TxnPool txn (spec tx) (proto tx)) as [e|] eqn:Hv.
    + exists [txn], (Some e). split; [|reflexivity].
      apply (ff_fails _ [] txn rest e); [constructor | assumption].
    + destruct (IH (calls ++ [call_with tx txn])) as (checked & err & Hff & Heq).
      exists (txn :: checked), err. split.
      * now apply first_failure_cons.
      * unfold call_with in *. simpl. rewrite Heq, <- app_assoc. reflexivity.
Qed.

Lemma first_failure_all_pass (check : SignedTxn -> option error) l checked err :
  Forall (fun txn => check txn = None) l ->
  first_failure check l checked err ->
  checked = l /\ err = None.
Proof.
  intros Hall Hff. inversion Hff; subst; [now split|].
  apply Forall_app in Hall as [_ Hall]. inversion Hall; congruence.
Qed.

Lemma first_failure_error (check : SignedTxn -> option error) l checked e :
  first_failure check l checked (Some e) ->
  Exists (fun txn => check txn <> None) l.
Proof.
  inversion 1; subst. apply Exists_app. right. constructor. congruence.
Qed.

Lemma first_failure_no_error (check : SignedTxn -> option error) l checked :
  first_failure check l checked None ->
  Forall (fun txn => check txn = None) l.
Proof. now inversion 1. Qed.

(** C4 (as the code has it): a solicited group that passes the fast-reject
    filter and whose transactions all pass verify.TxnPool is handed to the
    pool's Remember once, after one verifier call per transaction in order,
    and [Handle] returns no error.  The network is not called: the solicited
    path neither relays nor disconnects. *)
Theorem Handle_remembers_without_relay
    (h : TxHandler) (g : list SignedTxn) (tx : txBacklogMsg) :
  checkAlreadyCommitted h (solicited_item g) = (tx, false) ->
  Forall (fun txn => verify_TxnPool txn (spec tx) (proto tx) = None)
    (unverifiedTxGroup tx) ->
  let h' := fst (Handle h g) in
  unverifiedTxGroup tx = map InitCaches g /\
  txPool h' = fst (txPool_Remember (txPool h) (unverifiedTxGroup tx)) /\
  verifyCalls h' =
    verifyCalls h ++ map (call_with tx) (unverifiedTxGroup tx) /\
  net h' = net h /\
  snd (Handle h g) = None /\
  h' = set_txPool (txPool h') (set_verifyCalls (verifyCalls h') h).
Proof.
  intros Hcheck Hall. simpl.
  split.
  { pose proof (checkAlreadyCommitted_group h (solicited_item g)) as Hg.
    now rewrite Hcheck in Hg. }
  unfold Handle, processDecoded. fold (solicited_item g). rewrite Hcheck.
  destruct (processDecoded_loop_spec (unverifiedTxGroup tx) tx (verifyCalls h))
    as (checked & err & Hff & Heq).
  destruct (first_failure_all_pass _ _ _ _ Hall Hff) as [-> ->].
  rewrite Heq. simpl.
  destruct (txPool_Remember _ _) as [pool' [e|]]; simpl; repeat split.
Qed.

(** C5 (as the code has it): [Handle] has two outcomes.  It returns the
    error "invlid transaction" exactly when the fast-reject filter lets the
    group through and verify.TxnPool refuses one of its transactions.  In
    every other case it returns nil: when the filter already handled the
    group, and when every transaction verified, whether or not the pool
    then admitted the group. *)
Theorem Handle_two_outcomes (h : TxHandler) (g : list SignedTxn) :
  let tx := fst (checkAlreadyCommitted h (solicited_item g)) in
  let processingDone := snd (checkAlreadyCommitted h (solicited_item g)) in
  let refuses txn := verify_TxnPool txn (spec tx) (proto tx) <> None in
  (snd (Handle h g) = Some "invlid transaction" /\
   processingDone = false /\ Exists refuses (unverifiedTxGroup tx))
  \/
  (snd (Handle h g) = None /\
   (processingDone = true \/
    Forall (fun txn => verify_TxnPool txn (spec tx) (proto tx) = None)
      (unverifiedTxGroup tx))).
Proof.
  simpl. unfold Handle, processDecoded. fold (solicited_item g).
  destruct (checkAlreadyCommitted h (solicited_item g)) as [tx [|]]; simpl.
  { right. auto. }
  destruct (processDecoded_loop_spec (unverifiedTxGroup tx) tx (verifyCalls h))
    as (checked & err & Hff & Heq).
  rewrite Heq. destruct err as [e|]; simpl.
  - left. repeat split. exact (first_failure_error _ _ _ _ Hff).
  - right.
    assert (Hall := first_failure_no_error _ _ _ Hff).
    destruct (txPool_Remember _ _) as [pool' [e|]]; simpl;
      (split; [reflexivity|]); right; exact Hall.
Qed.

(** ** backlogWorker *)

Lemma postprocessCheckedTxn_queues (h h' : TxHandler) (wi : txBacklogMsg) :
  postprocessCheckedTxn h wi = Some h' ->
  backlogQueue h' = backlogQueue h /\
  txVerificationPool h' = txVerificationPool h /\
  postVerificationQueue h' = postVerificationQueue h.
Proof.
  unfold postprocessCheckedTxn.
  destruct (verificationErr wi), (rawmsg wi); simpl;
    try destruct (txPool_Remember _ _) as [pool' [e|]]; simpl;
    intros Heq; try discriminate; injection Heq as <-; auto.
Qed.

Lemma postprocessCheckedTxn_no_panic (h : TxHandler) (wi : txBacklogMsg) :
  is_Some (rawmsg wi) -> is_Some (postprocessCheckedTxn h wi).
Proof.
  intros [m Hm]. unfold postprocessCheckedTxn. rewrite Hm.
  destruct (verificationErr wi); simpl; [eauto|].
  destruct (txPool_Remember _ _) as [pool' [e|]]; eauto.
Qed.

Lemma checkAlreadyCommitted_fresh (h : TxHandler) (tx : txBacklogMsg) :
  fresh_item tx -> fresh_item (fst (checkAlreadyCommitted h tx)).
Proof.
  unfold fresh_item, checkAlreadyCommitted.
  destruct (txPool_Test _ _); [auto|].
  destruct (ledger_BlockHdr _ _); auto.
Qed.

Lemma Handle_queues (h : TxHandler) (g : list SignedTxn) :
  backlogQueue (fst (Handle h g)) = backlogQueue h /\
  txVerificationPool (fst (Handle h g)) = txVerificationPool h /\
  postVerificationQueue (fst (Handle h g)) = postVerificationQueue h.
Proof.
  unfold Handle, processDecoded.
  destruct (checkAlreadyCommitted _ _) as [tx [|]]; simpl; [auto|].
  destruct (processDecoded_loop _ _ _) as [[e|] calls]; simpl; [auto|].
  destruct (txPool_Remember _ _) as [pool' [e|]]; simpl; auto.
Qed.

Lemma processIncomingTxn_queues (h h' : TxHandler) (m : IncomingMessage)
    (out : OutgoingMessage) :
  processIncomingTxn h m = Some (h', out) ->
  txVerificationPool h' = txVerificationPool h /\
  postVerificationQueue h' = postVerificationQueue h /\
  (backlogQueue h' = backlogQueue h \/
   exists group, backlogQueue h' = backlogQueue h ++ [gossip_item m group]).
Proof.
  unfold processIncomingTxn.
  destruct (decode_loop _ _ _ _) as [[o|[ntx group]]|]; [| |discriminate].
  - intros [= <- <-]. auto.
  - destruct (decide (ntx = 0)); [intros [= <- <-]; auto|].
    destruct (chan_full (backlogQueue h)); intros [= <- <-]; simpl; eauto.
Qed.

Lemma asyncVerifySignature_queues (h : TxHandler) (tx : txBacklogMsg) :
  verificationErr tx = None ->
  let h' := asyncVerifySignature h tx in
  backlogQueue h' = backlogQueue h /\
  txVerificationPool h' = txVerificationPool h /\
  (postVerificationQueue h' = postVerificationQueue h \/
   exists err,
     postVerificationQueue h'
     = postVerificationQueue h ++ [set_verificationErr err tx]).
Proof.
  intros Hnone. simpl. unfold asyncVerifySignature.
  destruct (asyncVerifySignature_loop_spec (unverifiedTxGroup tx) tx
              (verifyCalls h) Hnone) as (checked & err & _ & ->).
  simpl. destruct (chan_full (postVerificationQueue h)); simpl; eauto.
Qed.

(** On every run the queues keep their shape, and the worker never runs
    into the nil raw message of [postprocessCheckedTxn]. *)
Lemma reachable_queues_wf (pc : WorkerPc) (h : TxHandler) :
  reachable pc h -> pc <> Panicked /\ queues_wf h.
Proof.
  induction 1 as [pool l | choice pc h ev pc' h' Hr [Hpc (Hb & Hv & Hp)] Hstep
                 | a pc h h' Hr [Hpc (Hb & Hv & Hp)] Hstep].
  - split; [discriminate|]. repeat split; constructor.
  - assert (Hpost : forall wi q,
              postVerificationQueue h = wi :: q ->
              run_postprocess (set_postVerificationQueue q h) wi = (pc', h') ->
              pc' <> Panicked /\ queues_wf h').
    { intros wi q Hq Hrun. rewrite Hq in Hp. inversion Hp as [|? ? Hwi Hq']; subst.
      unfold run_postprocess in Hrun.
      destruct (postprocessCheckedTxn_no_panic (set_postVerificationQueue q h) wi Hwi)
        as [h1 Hh1].
      rewrite Hh1 in Hrun. injection Hrun as <- <-.
      destruct (postprocessCheckedTxn_queues _ _ _ Hh1) as (Eb & Ev & Ep).
      split; [discriminate|]. unfold queues_wf. rewrite Eb, Ev, Ep. simpl. auto. }
    unfold backlogWorker_step in Hstep.
    destruct pc; try discriminate.
    + destruct (postVerificationQueue h) as [|wi q] eqn:Hq.
      * injection Hstep as <- <- <-. split; [discriminate|].
        unfold queues_wf. rewrite Hq. auto.
      * injection Hstep as <- Hrun. eauto.
    + destruct choice.
      * destruct (backlogQueue h) as [|wi q] eqn:Hq; [discriminate|].
        inversion Hb as [|? ? Hwi Hq']; subst.
        pose proof (checkAlreadyCommitted_fresh (set_backlogQueue q h) wi Hwi)
          as Hfresh.
        destruct (checkAlreadyCommitted (set_backlogQueue q h) wi)
          as [wi' [|]]; injection Hstep as <- <- <-;
          (split; [discriminate|]); repeat split; simpl; auto.
        apply Forall_app. split; [assumption|]. now constructor.
      * destruct (postVerificationQueue h) as [|wi q] eqn:Hq; [discriminate|].
        injection Hstep as <- Hrun. eauto.
      * destruct (ctxDone h); [|discriminate].
        injection Hstep as <- <- <-. split; [discriminate|]. repeat split; auto.
  - split; [assumption|].
    destruct a as [m | i | | g | l]; simpl in Hstep.
    + destruct (processIncomingTxn h m) as [[h1 out]|] eqn:Hin; [|discriminate].
      injection Hstep as <-.
      destruct (processIncomingTxn_queues _ _ _ _ Hin) as (Ev & Ep & Eb).
      unfold queues_wf. rewrite Ev, Ep.
      destruct Eb as [-> | [group ->]]; [auto|].
      repeat split; auto. apply Forall_app. split; [assumption|].
      constructor; [|constructor]. split; [eexists|]; reflexivity.
    + destruct (txVerificationPool h !! i) as [tx|] eqn:Hi; [|discriminate].
      injection Hstep as <-.
      destruct (Forall_lookup_1 _ _ _ _ Hv Hi) as [Hraw Herr].
      destruct (asyncVerifySignature_queues
                  (set_txVerificationPool (delete i (txVerificationPool h)) h)
                  tx Herr) as (Eb & Ev & Ep).
      unfold queues_wf. rewrite Eb, Ev. simpl.
      repeat split; [assumption | now apply Forall_delete |].
      destruct Ep as [-> | [err ->]]; [assumption|].
      apply Forall_app. split; [assumption|]. now constructor.
    + injection Hstep as <-. repeat split; assumption.
    + injection Hstep as <-.
      destruct (Handle_queues h g) as (Eb & Ev & Ep).
      unfold queues_wf. rewrite Eb, Ev, Ep. auto.
    + injection Hstep as <-. repeat split; assumption.
Qed.

(** Whatever the worker takes from the post-verification queue on a run
    has its raw message, and post-processing it returns to the top of the
    loop. *)
Lemma reachable_result_step choice pc h wi pc' h' :
  reachable pc h ->
  backlogWorker_step choice pc h = Some (EvResult wi, (pc', h')) ->
  is_Some (rawmsg wi) /\
  pc' = PriorityCheck /\
  exists q,
    postVerificationQueue h = wi :: q /\
    postprocessCheckedTxn (set_postVerificationQueue q h) wi = Some h'.
Proof.
  intros Hr Hstep.
  destruct (reachable_queues_wf pc h Hr) as (_ & _ & _ & Hp).
  assert (Hq : exists q,
             postVerificationQueue h = wi :: q /\
             run_postprocess (set_postVerificationQueue q h) wi = (pc', h')).
  { unfold backlogWorker_step in Hstep.
    destruct pc; try discriminate.
    - destruct (postVerificationQueue h) as [|wi0 q]; [discriminate|].
      injection Hstep as <- Hrun. eauto.
    - destruct choice.
      + destruct (backlogQueue h) as [|wi0 q]; [discriminate|].
        destruct (checkAlreadyCommitted _ _) as [wi' [|]]; discriminate.
      + destruct (postVerificationQueue h) as [|wi0 q]; [discriminate|].
        injection Hstep as <- Hrun. eauto.
      + destruct (ctxDone h); discriminate. }
  destruct Hq as (q & Hq & Hrun).
  rewrite Hq in Hp. inversion Hp as [|? ? Hwi _]; subst.
  split; [assumption|].
  unfold run_postprocess in Hrun.
  destruct (postprocessCheckedTxn_no_panic
              (set_postVerificationQueue q h) wi Hwi) as [h1 Hh1].
  rewrite Hh1 in Hrun. injection Hrun as <- <-. eauto.
Qed.

Lemma run_moves_reachable (moves : list Move) :
  forall pc h pc' h',
    reachable pc h ->
    run_moves moves pc h = Some (pc', h') ->
    reachable pc' h'.
Proof.
  induction moves as [|[choice|a] moves IH]; intros pc h pc' h' Hr Hrun;
    simpl in Hrun.
  - now injection Hrun as <- <-.
  - destruct (backlogWorker_step choice pc h) as [[ev [pc1 h1]]|] eqn:Hstep;
      [|discriminate].
    eapply IH; [|exact Hrun]. eapply reach_worker; eassumption.
  - destruct (env_step a h) as [h1|] eqn:Hstep; [|discriminate].
    eapply IH; [|exact Hrun]. eapply reach_env; eassumption.
Qed.

(** Left alone, the worker empties the post-verification queue in FIFO
    order before it looks at anything else; the backlog queue is not
    touched meanwhile. *)
Lemma backlogWorker_drains (choices : list SelectCase) :
  forall h,
    length choices = length (postVerificationQueue h) ->
    Forall (fun tx => is_Some (rawmsg tx)) (postVerificationQueue h) ->
    exists h',
      backlogWorker_run choices PriorityCheck h
      = Some (map EvResult (postVerificationQueue h), (PriorityCheck, h')) /\
      postVerificationQueue h' = [] /\
      backlogQueue h' = backlogQueue h /\
      txVerificationPool h' = txVerificationPool h.
Proof.
  induction choices as [|choice choices IH]; intros h Hlen Hraw.
  - destruct (postVerificationQueue h) eqn:Hq; [|discriminate].
    exists h. simpl. auto.
  - destruct (postVerificationQueue h) as [|wi q] eqn:Hq; [discriminate|].
    inversion Hraw as [|? ? Hwi Hq']; subst.
    destruct (postprocessCheckedTxn_no_panic
                (set_postVerificationQueue q h) wi Hwi) as [h1 Hh1].
    destruct (postprocessCheckedTxn_queues _ _ _ Hh1) as (Eb & Ev & Ep).
    simpl in Eb, Ev, Ep.
    destruct (IH h1) as (h' & Hrun & Hq1 & Hb1 & Hv1).
    { rewrite Ep. simpl in Hlen. lia. }
    { now rewrite Ep. }
    exists h'. simpl. rewrite Hq. unfold run_postprocess. rewrite Hh1, Hrun.
    rewrite Ep, Hq1, Hb1, Hv1, Eb, Ev. auto.
Qed.

(** C1 (as the code has it): at the non-blocking check that opens every
    iteration, a non-empty post-verification queue always wins: its head is
    processed and the loop restarts, whatever the backlog queue holds and
    whether or not the context is cancelled.  An item leaves the backlog
    queue only at the blocking select, and the worker gets to the blocking
    select only by the default branch of a check that saw the
    post-verification queue empty.  So, left alone, the worker processes
    every item of the post-verification queue, in order, before it touches
    the backlog queue.  What arrives on the post-verification queue after
    the check has no precedence at the blocking select. *)
Theorem backlogWorker_priority_at_check :
  (forall choice h wi q,
     postVerificationQueue h = wi :: q ->
     backlogWorker_step choice PriorityCheck h
     = Some (EvResult wi,
             run_postprocess (set_postVerificationQueue q h) wi)) /\
  (forall choice pc h wi pc' h',
     backlogWorker_step choice pc h = Some (EvBacklog wi, (pc', h')) ->
     pc = BlockingSelect /\ choice = CaseBacklog /\
     exists q, backlogQueue h = wi :: q) /\
  (forall choice pc h ev h',
     backlogWorker_step choice pc h = Some (ev, (BlockingSelect, h')) ->
     pc = PriorityCheck /\ postVerificationQueue h = [] /\
     ev = EvDefault /\ h' = h) /\
  (forall choices h,
     length choices = length (postVerificationQueue h) ->
     Forall (fun tx => is_Some (rawmsg tx)) (postVerificationQueue h) ->
     exists h',
       backlogWorker_run choices PriorityCheck h
       = Some (map EvResult (postVerificationQueue h), (PriorityCheck, h')) /\
       postVerificationQueue h' = [] /\
       backlogQueue h' = backlogQueue h).
Proof.
  split; [|split; [|split]];
    [| | |intros choices h Hlen Hraw;
          destruct (backlogWorker_drains choices h Hlen Hraw)
            as (h' & ? & ? & ? & _); eauto].
  - intros choice h wi q Hq. simpl. now rewrite Hq.
  - intros choice pc h wi pc' h' Hstep. unfold backlogWorker_step in Hstep.
    destruct pc; try discriminate.
    + destruct (postVerificationQueue h); discriminate.
    + destruct choice.
      * destruct (backlogQueue h) as [|wi0 q]; [discriminate|].
        destruct (checkAlreadyCommitted _ _) as [wi' [|]];
          injection Hstep as <- _ _; eauto.
      * destruct (postVerificationQueue h); discriminate.
      * destruct (ctxDone h); discriminate.
  - intros choice pc h ev h' Hstep. unfold backlogWorker_step in Hstep.
    destruct pc; try discriminate.
    + destruct (postVerificationQueue h) as [|wi q] eqn:Hq.
      * injection Hstep as <- <-. auto.
      * unfold run_postprocess in Hstep.
        destruct (postprocessCheckedTxn _ _); discriminate.
    + destruct choice.
      * destruct (backlogQueue h) as [|wi0 q]; [discriminate|].
        destruct (checkAlreadyCommitted _ _) as [wi' [|]]; discriminate.
      * destruct (postVerificationQueue h) as [|wi q]; [discriminate|].
        unfold run_postprocess in Hstep.
        destruct (postprocessCheckedTxn _ _); discriminate.
      * destruct (ctxDone h); discriminate.
Qed.

End Properties.

(** * The properties on the small instance *)

Lemma Toy_decoder_progresses : decoder_progresses (H := Toy.collaborators).
Proof.
  intros d v rest. destruct d as [|b d]; simpl; [discriminate|].
  unfold Toy.decode. destruct (Byte.eqb b xff); [discriminate|].
  intros [= _ <-]. simpl. lia.
Qed.

Lemma Toy_raced_reachable : reachable BlockingSelect Toy.raced.
Proof.
  apply (run_moves_reachable Toy.race_moves PriorityCheck Toy.h0).
  - apply reach_start.
  - vm_compute. reflexivity.
Qed.

(** C1, counterexample: in the state [Toy.raced] of a run the
    post-verification queue holds a verified item, and the worker, at its
    blocking select, takes the item of the backlog queue. *)
Lemma result_queue_always_first_fails :
  ~ result_queue_always_first (C := Toy.collaborators).
Proof.
  unfold result_queue_always_first. intros Hclaim.
  destruct (backlogWorker_step CaseBacklog BlockingSelect Toy.raced)
    as [[ev [pc' h']]|] eqn:Hstep; [|vm_compute in Hstep; discriminate].
  destruct (Hclaim BlockingSelect Toy.raced CaseBacklog ev pc' h'
              Toy_raced_reachable) as [wi Hwi].
  - vm_compute. discriminate.
  - exact Hstep.
  - subst ev. vm_compute in Hstep. discriminate.
Qed.

(** At the priority check of [Toy.raced], where both queues hold an item,
    the verified item goes first. *)
Lemma backlogWorker_priority_at_check_witness :
  postVerificationQueue Toy.raced = [Toy.verified_good] /\
  backlogQueue Toy.raced <> [] /\
  backlogWorker_step CaseBacklog PriorityCheck Toy.raced
  = Some (EvResult Toy.verified_good,
          run_postprocess (set_postVerificationQueue [] Toy.raced)
            Toy.verified_good).
Proof.
  split; [reflexivity|]. split; [discriminate|].
  apply (proj1 backlogWorker_priority_at_check). reflexivity.
Defined.

(** The verified group of [Toy.msg_good] is relayed as the bytes 01 02,
    without peer 1. *)
Lemma postprocess_relays_reencoded_witness :
  verificationErr Toy.verified_good = None /\
  rawmsg Toy.verified_good = Some Toy.msg_good /\
  txPool_Remember (txPool Toy.h0) (unverifiedTxGroup Toy.verified_good)
  = ([[1; 2]], None) /\
  exists handler' : @TxHandler Toy.collaborators,
    postprocessCheckedTxn Toy.h0 Toy.verified_good = Some handler' /\
    net handler' = [NetRelay (C := Toy.collaborators) "TX" [x01; x02] false 1].
Proof.
  split; [reflexivity|]. split; [reflexivity|]. split; [reflexivity|].
  destruct (postprocess_relays_reencoded Toy.h0 Toy.verified_good
              Toy.msg_good [[1; 2]] eq_refl eq_refl eq_refl)
    as (handler' & Hpost & Hnet & _).
  exists handler'. split; [exact Hpost | exact Hnet].
Defined.

(** The group with the refused payload 13 costs peer 3 its connection. *)
Lemma postprocess_error_disconnects_witness :
  verificationErr Toy.failed_badsig = Some "invalid signature" /\
  rawmsg Toy.failed_badsig = Some Toy.msg_badsig /\
  exists handler' : @TxHandler Toy.collaborators,
    postprocessCheckedTxn Toy.h0 Toy.failed_badsig = Some handler' /\
    net handler' = [NetDisconnect (C := Toy.collaborators) 3] /\
    txPool handler' = [] /\
    transactionMessagesHandled handler' = 0.
Proof.
  split; [reflexivity|]. split; [reflexivity|].
  destruct (postprocess_error_disconnects Toy.h0 Toy.failed_badsig
              Toy.msg_badsig "invalid signature" eq_refl eq_refl)
    as (handler' & Hpost & Hnet & Hpool & Hcount & _).
  exists handler'. repeat split; assumption.
Defined.

(** C4, counterexample: the solicited group of [Toy.solicited_group] passes
    the filter and verification and is remembered, and the network log of
    the handler stays empty. *)
Lemma solicited_path_relays_fails :
  ~ solicited_path_relays (C := Toy.collaborators).
Proof.
  unfold solicited_path_relays. intros Hclaim.
  destruct (Hclaim Toy.h0 Toy.solicited_group Toy.solicited_checked)
    as (data & wait & except & Hnet).
  - reflexivity.
  - repeat constructor.
  - vm_compute in Hnet. discriminate.
Qed.

(** The solicited group is remembered and the network log stays empty. *)
Lemma Handle_remembers_without_relay_witness :
  checkAlreadyCommitted Toy.h0 (solicited_item Toy.solicited_group)
  = (Toy.solicited_checked, false) /\
  Forall (fun txn =>
            verify_TxnPool txn (spec Toy.solicited_checked)
              (proto Toy.solicited_checked) = None)
    (unverifiedTxGroup Toy.solicited_checked) /\
  txPool (fst (Handle Toy.h0 Toy.solicited_group)) = [[1; 2]] /\
  net (fst (Handle Toy.h0 Toy.solicited_group)) = [] /\
  snd (Handle Toy.h0 Toy.solicited_group) = None.
Proof.
  assert (Hall : Forall (fun txn =>
                           verify_TxnPool txn (spec Toy.solicited_checked)
                             (proto Toy.solicited_checked) = None)
                   (unverifiedTxGroup Toy.solicited_checked))
    by (repeat constructor).
  split; [reflexivity|]. split; [exact Hall|].
  destruct (Handle_remembers_without_relay Toy.h0 Toy.solicited_group
              Toy.solicited_checked eq_refl Hall)
    as (_ & Hpool & _ & Hnet & Hret & _).
  repeat split; assumption.
Defined.

(** C5, counterexample: [Handle] returns nil for a group that the
    fast-reject filter already handled (a duplicate) and nil for a group
    that is verified and admitted. *)
Lemma solicited_noop_distinct_fails :
  ~ solicited_noop_distinct (C := Toy.collaborators).
Proof.
  unfold solicited_noop_distinct. intros Hclaim.
  apply (Hclaim Toy.h_dup Toy.single Toy.h0 Toy.single); reflexivity.
Qed.

(** A message with an undecodable second record and an empty message. *)
Lemma processIncomingTxn_rejects_witness :
  decoder_progresses (H := Toy.collaborators) /\
  (decodes (Data Toy.msg_corrupt) Toy.single (EndErr "truncated record") /\
   processIncomingTxn Toy.h0 Toy.msg_corrupt
   = Some (Toy.h0, {| Action := Disconnect |})) /\
  (decodes (C := Toy.collaborators) (Data Toy.msg_empty) [] EndEOF /\
   processIncomingTxn Toy.h0 Toy.msg_empty
   = Some (Toy.h0, {| Action := Disconnect |})).
Proof.
  assert (Hcorrupt : decodes (Data Toy.msg_corrupt) Toy.single
                       (EndErr "truncated record")).
  { unfold Toy.single. eapply (decodes_ok (C := Toy.collaborators)); [reflexivity|].
    apply (decodes_err (C := Toy.collaborators)). reflexivity. }
  assert (Hempty : decodes (C := Toy.collaborators) (Data Toy.msg_empty) [] EndEOF).
  { apply (decodes_eof (C := Toy.collaborators)). reflexivity. }
  split; [exact Toy_decoder_progresses|]. split; split; try assumption.
  - apply (processIncomingTxn_rejects Toy_decoder_progresses Toy.h0
             Toy.msg_corrupt). right. eauto.
  - apply (processIncomingTxn_rejects Toy_decoder_progresses Toy.h0
             Toy.msg_empty). left. exact Hempty.
Defined.

(** A good message on an empty and on a full backlog queue. *)
Lemma processIncomingTxn_enqueues_witness :
  decoder_progresses (H := Toy.collaborators) /\
  decodes (Data Toy.msg_good) Toy.solicited_group EndEOF /\
  Toy.solicited_group <> [] /\
  (exists handler' : @TxHandler Toy.collaborators,
     processIncomingTxn Toy.h0 Toy.msg_good
     = Some (handler', {| Action := Ignore |}) /\
     backlogQueue handler'
     = [gossip_item Toy.msg_good Toy.solicited_group]) /\
  (exists handler' : @TxHandler Toy.collaborators,
     processIncomingTxn Toy.h_full Toy.msg_good
     = Some (handler', {| Action := Ignore |}) /\
     backlogQueue handler' = backlogQueue Toy.h_full /\
     transactionMessagesDroppedFromBacklog handler' = 1).
Proof.
  assert (Hgood : decodes (Data Toy.msg_good) Toy.solicited_group EndEOF).
  { unfold Toy.solicited_group.
    do 2 (eapply (decodes_ok (C := Toy.collaborators)); [reflexivity|]). apply (decodes_eof (C := Toy.collaborators)). reflexivity. }
  split; [exact Toy_decoder_progresses|]. split; [exact Hgood|].
  split; [discriminate|]. split.
  - destruct (processIncomingTxn_enqueues Toy_decoder_progresses Toy.h0
                Toy.msg_good Toy.solicited_group Hgood)
      as (handler' & Hres & Hroom & _); [discriminate|].
    exists handler'. split; [exact Hres|].
    apply Hroom. vm_compute. lia.
  - destruct (processIncomingTxn_enqueues Toy_decoder_progresses Toy.h_full
                Toy.msg_good Toy.solicited_group Hgood)
      as (handler' & Hres & _ & Hfull & _); [discriminate|].
    exists handler'. split; [exact Hres|].
    apply Hfull. vm_compute. lia.
Defined.

(** Verification of a group whose second transaction is refused, with room
    on the post-verification queue and with a full one. *)
Lemma asyncVerifySignature_spec_witness :
  verificationErr Toy.pending_badsig = None /\
  exists checked err,
    first_failure
      (fun txn => verify_Txn txn (spec Toy.pending_badsig)
                    (proto Toy.pending_badsig))
      (unverifiedTxGroup Toy.pending_badsig) checked err /\
    verifyCalls (asyncVerifySignature Toy.h0 Toy.pending_badsig)
    = map (call_with Toy.pending_badsig) checked /\
    postVerificationQueue (asyncVerifySignature Toy.h0 Toy.pending_badsig)
    = [set_verificationErr err Toy.pending_badsig] /\
    postVerificationQueue (asyncVerifySignature Toy.h_full Toy.pending_badsig)
    = postVerificationQueue Toy.h_full /\
    transactionMessagesDroppedFromPool
      (asyncVerifySignature Toy.h_full Toy.pending_badsig) = 1.
Proof.
  split; [reflexivity|].
  destruct (asyncVerifySignature_spec Toy.h0 Toy.pending_badsig eq_refl)
    as (checked & err & Hff & Hcalls & Hroom & _).
  destruct (asyncVerifySignature_spec Toy.h_full Toy.pending_badsig eq_refl)
    as (_ & _ & _ & _ & _ & Hfull & _).
  exists checked, err. split; [exact Hff|]. split; [exact Hcalls|].
  split; [apply Hroom; vm_compute; lia|].
  apply Hfull. vm_compute. lia.
Defined.

(** A duplicate, a ledger without header, and a group that goes on. *)
Lemma checkAlreadyCommitted_outcomes_witness :
  (txPool_Test (txPool Toy.h_dup) (map InitCaches Toy.single)
   = Some "duplicate" /\
   snd (checkAlreadyCommitted Toy.h_dup (solicited_item Toy.single)) = true) /\
  (ledger_BlockHdr (ledger Toy.h_nohdr) (ledger_Latest (ledger Toy.h_nohdr))
   = inr "no header" /\
   snd (checkAlreadyCommitted Toy.h_nohdr (solicited_item Toy.single)) = true) /\
  (ledger_BlockHdr (ledger Toy.h0) (ledger_Latest (ledger Toy.h0))
   = inl {| CurrentProtocol := "v1"; HdrFeeSink := [x01];
            HdrRewardsPool := [x02] |} /\
   snd (checkAlreadyCommitted Toy.h0 (solicited_item Toy.single)) = false /\
   proto (fst (checkAlreadyCommitted Toy.h0 (solicited_item Toy.single))) = 2).
Proof.
  split; [|split].
  - split; [reflexivity|].
    exact (proj1 (checkAlreadyCommitted_outcomes Toy.h_dup
                    (solicited_item Toy.single)) "duplicate" eq_refl).
  - split; [reflexivity|].
    exact (proj1 (proj2 (checkAlreadyCommitted_outcomes Toy.h_nohdr
                           (solicited_item Toy.single)))
             "no header" eq_refl eq_refl).
  - split; [reflexivity|].
    destruct (proj2 (proj2 (checkAlreadyCommitted_outcomes Toy.h0
                              (solicited_item Toy.single)))
                _ eq_refl eq_refl) as (Hcont & Hproto & _).
    split; [exact Hcont | exact Hproto].
Defined.

(** The snapshot of a stopped item and of one that goes on. *)
Lemma checkAlreadyCommitted_frame_witness :
  (snd (checkAlreadyCommitted Toy.h_dup (gossip_item Toy.msg_good Toy.single))
   = true /\
   proto (fst (checkAlreadyCommitted Toy.h_dup
                 (gossip_item Toy.msg_good Toy.single))) = 0) /\
  (snd (checkAlreadyCommitted Toy.h0 (gossip_item Toy.msg_good Toy.single))
   = false /\
   spec (fst (checkAlreadyCommitted Toy.h0
                (gossip_item Toy.msg_good Toy.single)))
   = {| FeeSink := [x01]; RewardsPool := [x02] |}).
Proof.
  split.
  - split; [reflexivity|].
    exact (proj1 (proj1 (proj2 (proj2 (checkAlreadyCommitted_frame Toy.h_dup
                   (gossip_item Toy.msg_good Toy.single)))) eq_refl)).
  - split; [reflexivity|].
    destruct (proj2 (proj2 (proj2 (checkAlreadyCommitted_frame Toy.h0
                 (gossip_item Toy.msg_good Toy.single)))) eq_refl)
      as (hdr & Hhdr & _ & Hspec).
    rewrite Hspec. injection Hhdr as <-. reflexivity.
Defined.

(** * Further properties of the pipeline *)

Section Pipeline.
Context `{C : Collaborators}.

(** ** What one step does *)

(** The four ways in which the worker moves. *)
Lemma backlogWorker_step_cases choice pc h ev pc' h' :
  backlogWorker_step choice pc h = Some (ev, (pc', h')) ->
  (ev = EvDefault /\ pc = PriorityCheck /\ pc' = BlockingSelect /\
   h' = h /\ postVerificationQueue h = []) \/
  (exists wi q,
     ev = EvResult wi /\ postVerificationQueue h = wi :: q /\
     run_postprocess (set_postVerificationQueue q h) wi = (pc', h')) \/
  (exists wi q,
     ev = EvBacklog wi /\ pc = BlockingSelect /\ pc' = PriorityCheck /\
     backlogQueue h = wi :: q /\
     h' = (if snd (checkAlreadyCommitted (set_backlogQueue q h) wi)
           then set_backlogQueue q h
           else EnqueueBacklog (set_backlogQueue q h)
                  (fst (checkAlreadyCommitted (set_backlogQueue q h) wi)))) \/
  (ev = EvDone /\ pc = BlockingSelect /\ pc' = Returned /\
   h' = h /\ ctxDone h = true).
Proof.
  unfold backlogWorker_step. intros Hstep.
  destruct pc; try discriminate.
  - destruct (postVerificationQueue h) as [|wi q].
    + injection Hstep as <- <- <-. left. repeat split.
    + injection Hstep as <- Hrun. right. left. eauto.
  - destruct choice.
    + destruct (backlogQueue h) as [|wi q]; [discriminate|].
      right. right. left. exists wi, q.
      destruct (checkAlreadyCommitted _ _) as [wi' [|]];
        injection Hstep as <- <- <-; simpl; repeat split.

    + destruct (postVerificationQueue h) as [|wi q]; [discriminate|].
      injection Hstep as <- Hrun. right. left. eauto.
    + destruct (ctxDone h) eqn:Hd; [|discriminate].
      injection Hstep as <- <- <-. do 3 right. repeat split.
Qed.

(** The three ways in which post-processing ends without panic. *)
Lemma postprocessCheckedTxn_cases (h h' : TxHandler) (wi : txBacklogMsg) :
  postprocessCheckedTxn h wi = Some h' ->
  (exists m e,
     rawmsg wi = Some m /\ verificationErr wi = Some e /\
     h' = net_Disconnect (Sender m) h) \/
  (exists pool' e,
     verificationErr wi = None /\
     txPool_Remember (txPool h) (unverifiedTxGroup wi) = (pool', Some e) /\
     h' = set_txPool pool' (inc_transactionMessagesHandled h)) \/
  (exists pool' m,
     verificationErr wi = None /\ rawmsg wi = Some m /\
     txPool_Remember (txPool h) (unverifiedTxGroup wi) = (pool', None) /\
     h' = net_Relay TxnTag (reencode (unverifiedTxGroup wi)) false (Sender m)
            (set_txPool pool' (inc_transactionMessagesHandled h))).
Proof.
  unfold postprocessCheckedTxn.
  destruct (verificationErr wi) as [e|].
  - destruct (rawmsg wi) as [m|]; [|discriminate].
    intros [= <-]. left. eauto.
  - simpl. destruct (txPool_Remember _ _) as [pool' [e|]] eqn:Hrem.
    + intros [= <-]. right. left. eauto.
    + destruct (rawmsg wi) as [m|]; [|discriminate].
      intros [= <-]. right. right. eauto 10.
Qed.

Lemma run_postprocess_cases (h h' : TxHandler) (wi : txBacklogMsg) pc' :
  run_postprocess h wi = (pc', h') ->
  (pc' = Panicked /\ h' = h) \/
  (pc' = PriorityCheck /\ postprocessCheckedTxn h wi = Some h').
Proof.
  unfold run_postprocess.
  destruct (postprocessCheckedTxn h wi) as [h1|]; intros [= <- <-]; auto.
Qed.

Lemma try_enqueue_backlog_cases (tx : txBacklogMsg) (h : TxHandler) :
  (txBacklogSize <= length (backlogQueue h) /\
   try_enqueue_backlog tx h = inc_transactionMessagesDroppedFromBacklog h) \/
  (length (backlogQueue h) < txBacklogSize /\
   try_enqueue_backlog tx h = set_backlogQueue (backlogQueue h ++ [tx]) h).
Proof.
  unfold try_enqueue_backlog, chan_full.
  case_bool_decide; [left | right]; split; auto; lia.
Qed.

Lemma try_enqueue_postVerification_cases (tx : txBacklogMsg) (h : TxHandler) :
  (txBacklogSize <= length (postVerificationQueue h) /\
   try_enqueue_postVerification tx h
   = inc_transactionMessagesDroppedFromPool h) \/
  (length (postVerificationQueue h) < txBacklogSize /\
   try_enqueue_postVerification tx h
   = set_postVerificationQueue (postVerificationQueue h ++ [tx]) h).
Proof.
  unfold try_enqueue_postVerification, chan_full.
  case_bool_decide; [left | right]; split; auto; lia.
Qed.

(** The slice of the decode loop is never empty. *)
Lemma decode_loop_slice_nonempty (fuel : nat) :
  forall d ntx group ntx' group',
    0 < length group ->
    decode_loop fuel d ntx group = Some (inr (ntx', group')) ->
    0 < length group'.
Proof.
  induction fuel as [|fuel IH]; intros d ntx group ntx' group' Hpos Hloop;
    [discriminate|].
  simpl in Hloop.
  set (group1 := if decide (length group = ntx) then _ else group) in *.
  assert (Hpos1 : 0 < length group1).
  { subst group1. case_decide; [rewrite length_app|]; lia. }
  destruct (Decode d) as [|e|v rest].
  - now injection Hloop as <- <-.
  - discriminate.
  - eapply IH; [|exact Hloop]. now rewrite length_insert.
Qed.

(** The only early return of the decode loop is the disconnect answer. *)
Lemma decode_loop_early (fuel : nat) :
  forall d ntx group out,
    decode_loop fuel d ntx group = Some (inl out) ->
    out = {| Action := Disconnect |}.
Proof.
  induction fuel as [|fuel IH]; intros d ntx group out; simpl;
    [discriminate|].
  destruct (Decode d); [discriminate | now intros [= <-] | apply IH].
Qed.

(** What a gossip message does to the handler: nothing, or the
    non-blocking send of an item with a non-empty group. *)
Lemma processIncomingTxn_shape (h h' : TxHandler) (m : IncomingMessage)
    (out : OutgoingMessage) :
  processIncomingTxn h m = Some (h', out) ->
  (h' = h /\ out = {| Action := Disconnect |}) \/
  (exists group,
     group <> [] /\ out = {| Action := Ignore |} /\
     h' = try_enqueue_backlog (gossip_item m group) h).
Proof.
  unfold processIncomingTxn.
  destruct (decode_loop _ _ _ _) as [[o|[ntx group]]|] eqn:Hloop;
    [| |discriminate].
  - intros [= <- <-]. left. split; [reflexivity|].
    eapply decode_loop_early. exact Hloop.
  - destruct (decide (ntx = 0)); intros [= <- <-]; [left; auto|].
    right. exists (take ntx group). split; [|split; reflexivity].
    apply decode_loop_slice_nonempty in Hloop; [|simpl; lia].
    destruct group; [simpl in Hloop; lia|].
    destruct ntx; [congruence | discriminate].
Qed.

(** X5: With a decoder that makes progress the gossip handler always returns,
    and it knows two answers only: disconnect, with the handler left
    untouched, or ignore, after the non-blocking send of an item with a
    non-empty group.  It never asks the network to broadcast. *)
Theorem processIncomingTxn_answers (Hprog : decoder_progresses)
    (h : TxHandler) (m : IncomingMessage) :
  exists h' out,
    processIncomingTxn h m = Some (h', out) /\
    ((out = {| Action := Disconnect |} /\ h' = h) \/
     (out = {| Action := Ignore |} /\
      exists group,
        group <> [] /\ h' = try_enqueue_backlog (gossip_item m group) h)).
Proof.
  destruct (processIncomingTxn_total Hprog h m) as [[h' out] Hres].
  exists h', out. split; [exact Hres|].
  destruct (processIncomingTxn_shape _ _ _ _ Hres)
    as [[-> ->] | (group & Hne & -> & ->)]; eauto.
Qed.

Lemma asyncVerifySignature_loop_frame (txns : list SignedTxn) :
  forall (tx : txBacklogMsg) (calls : list VerifyCall),
    exists e,
      fst (asyncVerifySignature_loop txns tx calls) = set_verificationErr e tx.
Proof.
  induction txns as [|txn rest IH]; intros tx calls; simpl.
  - exists (verificationErr tx). now rewrite set_verificationErr_same.
  - destruct (verify_Txn txn (spec tx) (proto tx)) as [e|]; [eauto|].
    destruct (IH (set_verificationErr None tx)
                (calls ++ [{| vc_txn := txn; vc_spec := spec tx;
                              vc_proto := proto tx |}])) as [e He].
    exists e. simpl in He. rewrite He. reflexivity.
Qed.

Lemma asyncVerifySignature_shape (h : TxHandler) (tx : txBacklogMsg) :
  exists e calls,
    asyncVerifySignature h tx
    = try_enqueue_postVerification (set_verificationErr e tx)
        (set_verifyCalls calls h).
Proof.
  destruct (asyncVerifySignature_loop_frame (unverifiedTxGroup tx) tx
              (verifyCalls h)) as [e He].
  unfold asyncVerifySignature, try_enqueue_postVerification.
  destruct (asyncVerifySignature_loop _ _ _) as [tx' calls].
  simpl in He. subst tx'. exists e, calls. reflexivity.
Qed.

Lemma Handle_shape (h : TxHandler) (g : list SignedTxn) :
  fst (Handle h g) = h \/
  exists calls,
    fst (Handle h g) = set_verifyCalls calls h \/
    exists pool', fst (Handle h g) = set_txPool pool' (set_verifyCalls calls h).
Proof.
  unfold Handle, processDecoded.
  destruct (checkAlreadyCommitted _ _) as [tx [|]]; simpl; [auto|].
  destruct (processDecoded_loop _ _ _) as [[e|] calls]; simpl; [eauto|].
  destruct (txPool_Remember _ _) as [pool' [e|]]; simpl; eauto.
Qed.

(** Splits a step of the worker or of the environment into its cases and
    rewrites the state after the step. *)
Ltac worker_cases Hstep :=
  apply backlogWorker_step_cases in Hstep;
  destruct Hstep as
    [(-> & -> & -> & -> & ?)
    |[(?wi & ?q & -> & ?Hq & Hstep)
     |[(?wi & ?q & -> & -> & -> & ?Hq & ->)
      |(-> & -> & -> & -> & ?)]]];
  [ | apply run_postprocess_cases in Hstep;
      destruct Hstep as [[-> ->] | [-> Hstep]];
      [ | apply postprocessCheckedTxn_cases in Hstep;
          destruct Hstep as
            [(?m & ?e & ?Hraw & ?Herr & ->)
            |[(?pool' & ?e & ?Herr & ?Hrem & ->)
             |(?pool' & ?m & ?Herr & ?Hraw & ?Hrem & ->)]] ]
    | | ].

Ltac env_cases Hstep :=
  match type of Hstep with
  | env_step ?a ?h = Some _ =>
      destruct a as [?m | ?i | | ?g | ?l]; simpl in Hstep;
      [ let Hin := fresh "Hin" in
        destruct (processIncomingTxn h m) as [[? ?out]|] eqn:Hin;
        [|discriminate];
        injection Hstep as <-;
        apply processIncomingTxn_shape in Hin;
        destruct Hin as [[-> _] | (?group & ?Hgroup & _ & ->)]
      | let Hi := fresh "Hi" in
        destruct (txVerificationPool h !! i) as [?tx|] eqn:Hi;
        [|discriminate];
        injection Hstep as <-
      | injection Hstep as <-
      | injection Hstep as <-
      | injection Hstep as <- ]
  end.

(** ** Invariants of a run *)

(** X1: The two queues never hold more than [txBacklogSize] items. *)
Theorem queues_within_capacity (pc : WorkerPc) (h : TxHandler) :
  reachable pc h ->
  length (backlogQueue h) <= txBacklogSize /\
  length (postVerificationQueue h) <= txBacklogSize.
Proof.
  induction 1 as [pool l | choice pc h ev pc' h' Hr [Hb Hp] Hstep
                 | a pc h h' Hr [Hb Hp] Hstep].
  - simpl. lia.
  - worker_cases Hstep; simpl; rewrite ?Hq in *; simpl in *;
      try (split; lia).
    destruct (checkAlreadyCommitted _ _) as [wi' [|]]; simpl; split; lia.
  - env_cases Hstep.
    + auto.
    + destruct (try_enqueue_backlog_cases (gossip_item m group) h)
        as [[_ ->] | [Hroom ->]]; simpl; [auto|].
      rewrite length_app. simpl. lia.
    + destruct (asyncVerifySignature_shape
                  (set_txVerificationPool (delete i (txVerificationPool h)) h)
                  tx) as (e & calls & ->).
      match goal with
      | |- context [try_enqueue_postVerification ?x ?y] =>
          destruct (try_enqueue_postVerification_cases x y)
            as [[_ ->] | [Hroom ->]]
      end; simpl in *; [auto|].
      rewrite length_app. simpl. lia.
    + auto.
    + destruct (Handle_shape h g) as [-> | (calls & [-> | [pool' ->]])]; auto.
    + auto.
Qed.

(** X2: No item with an empty group is ever queued: not on the backlog queue,
    not with the execution pool, not on the post-verification queue. *)
Theorem queued_groups_nonempty (pc : WorkerPc) (h : TxHandler) :
  reachable pc h ->
  Forall (fun tx => unverifiedTxGroup tx <> []) (backlogQueue h) /\
  Forall (fun tx => unverifiedTxGroup tx <> []) (txVerificationPool h) /\
  Forall (fun tx => unverifiedTxGroup tx <> []) (postVerificationQueue h).
Proof.
  induction 1 as [pool l | choice pc h ev pc' h' Hr (Hb & Hv & Hp) Hstep
                 | a pc h h' Hr (Hb & Hv & Hp) Hstep].
  - repeat split; constructor.
  - worker_cases Hstep; simpl; rewrite ?Hq in *; auto;
      try (inversion Hp; subst; now auto).
    inversion Hb as [|? ? Hwi Hq']; subst.
    pose proof (checkAlreadyCommitted_group (set_backlogQueue q h) wi) as Hg.
    destruct (checkAlreadyCommitted _ _) as [wi' [|]]; simpl in *; auto.
    repeat split; auto. apply Forall_app. split; [assumption|].
    constructor; [|constructor]. rewrite Hg.
    destruct (unverifiedTxGroup wi); [congruence | discriminate].
  - env_cases Hstep.
    + auto.
    + destruct (try_enqueue_backlog_cases (gossip_item m group) h)
        as [[_ ->] | [_ ->]]; simpl; auto.
      repeat split; auto. apply Forall_app. split; [assumption|].
      now constructor.
    + pose proof (Forall_lookup_1 _ _ _ _ Hv Hi) as Htx.
      destruct (asyncVerifySignature_shape
                  (set_txVerificationPool (delete i (txVerificationPool h)) h)
                  tx) as (e & calls & ->).
      match goal with
      | |- context [try_enqueue_postVerification ?x ?y] =>
          destruct (try_enqueue_postVerification_cases x y)
            as [[_ ->] | [_ ->]]
      end; simpl; (repeat split; [assumption | now apply Forall_delete |]);
        [assumption|].
      apply Forall_app. split; [assumption|]. now constructor.
    + auto.
    + destruct (Handle_shape h g) as [-> | (calls & [-> | [pool' ->]])]; auto.
    + auto.
Qed.

Lemma relay_count_app (l1 l2 : list NetCall) :
  relay_count (l1 ++ l2) = relay_count l1 + relay_count l2.
Proof.
  induction l1 as [|[p|tag data wait except] l1 IH]; simpl; lia.
Qed.

(** X3: The handled counter is incremented before every relay: on a run the
    number of relay calls never exceeds the counter. *)
Theorem relays_are_counted (pc : WorkerPc) (h : TxHandler) :
  reachable pc h ->
  relay_count (net h) <= transactionMessagesHandled h.
Proof.
  induction 1 as [pool l | choice pc h ev pc' h' Hr IH Hstep
                 | a pc h h' Hr IH Hstep].
  - simpl. lia.
  - worker_cases Hstep; simpl in *; rewrite ?relay_count_app; simpl;
      try lia.
    destruct (checkAlreadyCommitted _ _) as [wi' [|]]; simpl; lia.
  - env_cases Hstep.
    + assumption.
    + destruct (try_enqueue_backlog_cases (gossip_item m group) h)
        as [[_ ->] | [_ ->]]; simpl; assumption.
    + destruct (asyncVerifySignature_shape
                  (set_txVerificationPool (delete i (txVerificationPool h)) h)
                  tx) as (e & calls & ->).
      match goal with
      | |- context [try_enqueue_postVerification ?x ?y] =>
          destruct (try_enqueue_postVerification_cases x y)
            as [[_ ->] | [_ ->]]
      end; simpl; assumption.
    + assumption.
    + destruct (Handle_shape h g) as [-> | (calls & [-> | [pool' ->]])];
        assumption.
    + assumption.
Qed.

(** X4: The worker returns only at the blocking select, and only once the
    context is cancelled; a worker that has returned takes no further
    step, whatever the queues hold. *)
Theorem worker_returns_only_after_stop (h : TxHandler) :
  reachable Returned h ->
  ctxDone h = true /\
  forall choice, backlogWorker_step choice Returned h = None.
Proof.
  intros Hr. split; [|reflexivity].
  remember Returned as pc eqn:Hpc. revert Hpc.
  induction Hr as [pool l | choice pc h ev pc' h' Hr IH Hstep
                  | a pc h h' Hr IH Hstep]; intros Hpc.
  - discriminate.
  - worker_cases Hstep; try discriminate. assumption.
  - specialize (IH Hpc). env_cases Hstep.
    + assumption.
    + destruct (try_enqueue_backlog_cases (gossip_item m group) h)
        as [[_ ->] | [_ ->]]; simpl; assumption.
    + destruct (asyncVerifySignature_shape
                  (set_txVerificationPool (delete i (txVerificationPool h)) h)
                  tx) as (e & calls & ->).
      match goal with
      | |- context [try_enqueue_postVerification ?x ?y] =>
          destruct (try_enqueue_postVerification_cases x y)
            as [[_ ->] | [_ ->]]
      end; simpl; assumption.
    + reflexivity.
    + destruct (Handle_shape h g) as [-> | (calls & [-> | [pool' ->]])];
        assumption.
    + assumption.
Qed.

(** ** The post-verification action and the solicited path *)

(** X6: When the pool refuses a verified group, the message counts as handled
    and that is all: no relay, no disconnect.  The raw message of the item
    is not looked at. *)
Theorem postprocess_refusal_is_silent
    (handler : TxHandler) (wi : txBacklogMsg) (pool' : TransactionPool)
    (e : error) :
  verificationErr wi = None ->
  txPool_Remember (txPool handler) (unverifiedTxGroup wi) = (pool', Some e) ->
  exists handler',
    postprocessCheckedTxn handler wi = Some handler' /\
    net handler' = net handler /\
    txPool handler' = pool' /\
    transactionMessagesHandled handler' =
      S (transactionMessagesHandled handler) /\
    handler' = set_txPool pool' (inc_transactionMessagesHandled handler).
Proof.
  intros Herr Hrem. eexists. split.
  - unfold postprocessCheckedTxn. rewrite Herr. simpl. rewrite Hrem.
    reflexivity.
  - repeat split.
Qed.

Lemma processDecoded_loop_stops (tx : txBacklogMsg) (pre : list SignedTxn) :
  forall txn post e calls,
    Forall (fun txn => verify_TxnPool txn (spec tx) (proto tx) = None) pre ->
    verify_TxnPool txn (spec tx) (proto tx) = Some e ->
    processDecoded_loop (pre ++ txn :: post) tx calls
    = (Some e, calls ++ map (call_with tx) (pre ++ [txn])).
Proof.
  induction pre as [|x pre IH]; intros txn post e calls Hpre Htxn; simpl.
  - now rewrite Htxn.
  - inversion Hpre as [|? ? Hx Hpre']; subst. rewrite Hx.
    rewrite (IH txn post e _ Hpre' Htxn), <- app_assoc. reflexivity.
Qed.

(** X7: A solicited group with a transaction that verify.TxnPool refuses never
    reaches the pool: verification stops at the first refused transaction,
    Remember is not called, the network is not called, and [Handle] returns
    its error. *)
Theorem Handle_invalid_keeps_pool
    (h : TxHandler) (g : list SignedTxn) (tx : txBacklogMsg)
    (pre post : list SignedTxn) (txn : SignedTxn) (e : error) :
  checkAlreadyCommitted h (solicited_item g) = (tx, false) ->
  unverifiedTxGroup tx = pre ++ txn :: post ->
  Forall (fun txn => verify_TxnPool txn (spec tx) (proto tx) = None) pre ->
  verify_TxnPool txn (spec tx) (proto tx) = Some e ->
  Handle h g =
    (set_verifyCalls (verifyCalls h ++ map (call_with tx) (pre ++ [txn])) h,
     Some "invlid transaction") /\
  txPool (fst (Handle h g)) = txPool h /\
  net (fst (Handle h g)) = net h /\
  processDecoded h g =
    (fst (Handle h g), {| Action := Disconnect |}, true).
Proof.
  intros Hcheck Hgroup Hpre Htxn.
  assert (Hdec : processDecoded h g =
            (set_verifyCalls
               (verifyCalls h ++ map (call_with tx) (pre ++ [txn])) h,
             {| Action := Disconnect |}, true)).
  { unfold processDecoded. fold (solicited_item g). rewrite Hcheck, Hgroup.
    now rewrite (processDecoded_loop_stops tx pre txn post e _ Hpre Htxn). }
  unfold Handle. rewrite Hdec. simpl. repeat split.
Qed.

(** A solicited group that the fast-reject filter stops changes nothing:
    the verifier is not called, the pool is not asked to remember anything,
    and [Handle] returns nil. *)
Theorem Handle_filtered_is_noop (h : TxHandler) (g : list SignedTxn) :
  snd (checkAlreadyCommitted h (solicited_item g)) = true ->
  Handle h g = (h, None) /\
  processDecoded h g = (h, OutgoingMessage_zero, true).
Proof.
  intros Hstop. unfold Handle, processDecoded. fold (solicited_item g).
  destruct (checkAlreadyCommitted h (solicited_item g)) as [tx done].
  simpl in Hstop. subst done. split; reflexivity.
Qed.

(** ** From relay to ingestion, and one message end to end *)

Lemma decodes_reencode (g : list SignedTxn) :
  Forall (fun s => forall rest, Decode (Encode s ++ rest) = DecOk s rest) g ->
  Decode [] = DecEOF ->
  decodes (reencode g) g EndEOF.
Proof.
  intros Hrt Heof. rewrite reencode_concat.
  induction Hrt as [|s g Hs _ IH]; simpl.
  - now apply decodes_eof.
  - eapply decodes_ok; [apply Hs | exact IH].
Qed.

(** X8: What one handler relays, another handler ingests as the same group:
    with a codec that decodes each encoding back, the bytes of
    [reencode g] decode to [g] itself, and a peer's [processIncomingTxn]
    puts exactly this group on its backlog queue. *)
Theorem relayed_bytes_decode_to_group (Hprog : decoder_progresses)
    (h : TxHandler) (sender : Peer) (g : list SignedTxn) :
  Forall (fun s => forall rest, Decode (Encode s ++ rest) = DecOk s rest) g ->
  Decode [] = DecEOF ->
  g <> [] ->
  let m := {| Sender := sender; MsgTag := TxnTag; Data := reencode g |} in
  decodes (Data m) g EndEOF /\
  processIncomingTxn h m =
    Some (try_enqueue_backlog (gossip_item m g) h, {| Action := Ignore |}).
Proof.
  intros Hrt Heof Hne m.
  pose proof (decodes_reencode g Hrt Heof) as Hdec.
  split; [exact Hdec|].
  rewrite (processIncomingTxn_decoded Hprog h m g Hdec).
  destruct (decide (length g = 0)) as [Hz|_]; [|reflexivity].
  destruct g; [congruence | discriminate].
Qed.

Lemma asyncVerifySignature_loop_all_pass (txns : list SignedTxn) :
  forall (tx : txBacklogMsg) (calls : list VerifyCall),
    verificationErr tx = None ->
    Forall (fun txn => verify_Txn txn (spec tx) (proto tx) = None) txns ->
    asyncVerifySignature_loop txns tx calls
    = (tx, calls ++ map (call_with tx) txns).
Proof.
  intros tx calls Hnone Hall.
  destruct (asyncVerifySignature_loop_spec txns tx calls Hnone)
    as (checked & err & Hff & ->).
  destruct (first_failure_all_pass _ _ _ _ Hall Hff) as [-> ->].
  now rewrite <- Hnone, set_verificationErr_same.
Qed.

Lemma chan_full_nil : chan_full [] = false.
Proof. reflexivity. Qed.

Lemma map_InitCaches_nonempty (recs : list SignedTxn) :
  recs <> [] -> length recs <> 0.
Proof. destruct recs; [congruence | discriminate]. Qed.

(** X9: One valid message on an idle handler, from delivery to relay: the
    message is decoded and queued, the worker filters it and hands it to
    the execution pool, every transaction verifies, the pool admits the
    group.  At the end the queues are empty again, the pool is the one
    Remember returned, the handled counter is one higher, and the network
    has seen exactly one call: the relay of the re-encoded group, without
    the sender. *)
Theorem gossip_message_end_to_end (Hprog : decoder_progresses)
    (h : TxHandler) (m : IncomingMessage) (recs : list SignedTxn)
    (latestHdr : BlockHeader) (pool' : TransactionPool) :
  backlogQueue h = [] ->
  postVerificationQueue h = [] ->
  txVerificationPool h = [] ->
  decodes (Data m) recs EndEOF ->
  recs <> [] ->
  let group := map InitCaches recs in
  let tx := snapshot_of latestHdr (gossip_item m group) in
  txPool_Test (txPool h) group = None ->
  ledger_BlockHdr (ledger h) (ledger_Latest (ledger h)) = inl latestHdr ->
  Forall (fun txn => verify_Txn txn (spec tx) (proto tx) = None) group ->
  txPool_Remember (txPool h) group = (pool', None) ->
  run_moves (one_message m) PriorityCheck h =
    Some (PriorityCheck,
          net_Relay TxnTag (reencode group) false (Sender m)
            (set_txPool pool'
               (inc_transactionMessagesHandled
                  (set_verifyCalls
                     (verifyCalls h ++ map (call_with tx) group) h)))).
Proof.
  intros Hb Hp Hv Hdec Hne group tx Htest Hhdr Hverify Hrem.
  set (h1 := set_backlogQueue [gossip_item m recs] h).
  set (h2 := set_txVerificationPool [tx] (set_backlogQueue [] h1)).
  set (h3 := set_postVerificationQueue [tx]
               (set_verifyCalls (verifyCalls h ++ map (call_with tx) group)
                  (set_txVerificationPool [] h2))).
  assert (Hdeliver : env_step (GossipMessage m) h = Some h1).
  { unfold env_step.
    rewrite (processIncomingTxn_decoded Hprog _ m recs Hdec).
    destruct (decide (length recs = 0)) as [Hz|_];
      [now apply map_InitCaches_nonempty in Hne|].
    unfold try_enqueue_backlog. rewrite Hb, chan_full_nil. reflexivity. }
  assert (Hcheck : backlogWorker_step CaseBacklog PriorityCheck h1
                   = Some (EvDefault, (BlockingSelect, h1))).
  { unfold backlogWorker_step. simpl. now rewrite Hp. }
  assert (Htake : backlogWorker_step CaseBacklog BlockingSelect h1
                  = Some (EvBacklog (gossip_item m recs), (PriorityCheck, h2))).
  { unfold backlogWorker_step, checkAlreadyCommitted. simpl.
    fold group. rewrite Htest, Hhdr. unfold EnqueueBacklog. simpl.
    rewrite Hv. reflexivity. }
  assert (Hverified : env_step (VerifyTaskRuns 0) h2 = Some h3).
  { unfold env_step, asyncVerifySignature. simpl.
    change (set_snapshot _ _ _ _) with tx.
    rewrite (asyncVerifySignature_loop_all_pass group tx (verifyCalls h)
               eq_refl Hverify).
    simpl. rewrite Hp, chan_full_nil. reflexivity. }
  unfold one_message. cbn [run_moves].
  rewrite Hdeliver, Hcheck, Htake, Hverified.
  unfold backlogWorker_step. simpl.
  unfold run_postprocess, postprocessCheckedTxn. simpl.
  fold group. rewrite Hrem.
  destruct h; simpl in *; subst; reflexivity.
Qed.

Lemma asyncVerifySignature_loop_stops (pre : list SignedTxn) :
  forall (tx : txBacklogMsg) txn post e calls,
    Forall (fun txn => verify_Txn txn (spec tx) (proto tx) = None) pre ->
    verify_Txn txn (spec tx) (proto tx) = Some e ->
    asyncVerifySignature_loop (pre ++ txn :: post) tx calls
    = (set_verificationErr (Some e) tx,
       calls ++ map (call_with tx) (pre ++ [txn])).
Proof.
  induction pre as [|x pre IH]; intros tx txn post e calls Hpre Htxn; simpl.
  - now rewrite Htxn.
  - inversion Hpre as [|? ? Hx Hpre']; subst. rewrite Hx. simpl.
    rewrite (IH (set_verificationErr None tx) txn post e _ Hpre' Htxn).
    rewrite <- app_assoc. reflexivity.
Qed.

(** X10: One message with a transaction that verify.Txn refuses, from delivery
    to the end: verification stops at the refused transaction, and the
    worker answers with one call on the network, the disconnect of the
    sender.  The pool is never asked to remember the group and the handled
    counter keeps its value. *)
Theorem invalid_message_end_to_end (Hprog : decoder_progresses)
    (h : TxHandler) (m : IncomingMessage) (recs : list SignedTxn)
    (latestHdr : BlockHeader)
    (pre post : list SignedTxn) (txn : SignedTxn) (e : error) :
  backlogQueue h = [] ->
  postVerificationQueue h = [] ->
  txVerificationPool h = [] ->
  decodes (Data m) recs EndEOF ->
  recs <> [] ->
  let group := map InitCaches recs in
  let tx := snapshot_of latestHdr (gossip_item m group) in
  txPool_Test (txPool h) group = None ->
  ledger_BlockHdr (ledger h) (ledger_Latest (ledger h)) = inl latestHdr ->
  group = pre ++ txn :: post ->
  Forall (fun txn => verify_Txn txn (spec tx) (proto tx) = None) pre ->
  verify_Txn txn (spec tx) (proto tx) = Some e ->
  run_moves (one_message m) PriorityCheck h =
    Some (PriorityCheck,
          net_Disconnect (Sender m)
            (set_verifyCalls
               (verifyCalls h ++ map (call_with tx) (pre ++ [txn])) h)).
Proof.
  intros Hb Hp Hv Hdec Hne group tx Htest Hhdr Hgroup Hpre Htxn.
  set (h1 := set_backlogQueue [gossip_item m recs] h).
  set (h2 := set_txVerificationPool [tx] (set_backlogQueue [] h1)).
  set (h3 := set_postVerificationQueue [set_verificationErr (Some e) tx]
               (set_verifyCalls
                  (verifyCalls h ++ map (call_with tx) (pre ++ [txn]))
                  (set_txVerificationPool [] h2))).
  assert (Hdeliver : env_step (GossipMessage m) h = Some h1).
  { unfold env_step.
    rewrite (processIncomingTxn_decoded Hprog _ m recs Hdec).
    destruct (decide (length recs = 0)) as [Hz|_];
      [now apply map_InitCaches_nonempty in Hne|].
    unfold try_enqueue_backlog. rewrite Hb, chan_full_nil. reflexivity. }
  assert (Hcheck : backlogWorker_step CaseBacklog PriorityCheck h1
                   = Some (EvDefault, (BlockingSelect, h1))).
  { unfold backlogWorker_step. simpl. now rewrite Hp. }
  assert (Htake : backlogWorker_step CaseBacklog BlockingSelect h1
                  = Some (EvBacklog (gossip_item m recs), (PriorityCheck, h2))).
  { unfold backlogWorker_step, checkAlreadyCommitted. simpl.
    fold group. rewrite Htest, Hhdr. unfold EnqueueBacklog. simpl.
    rewrite Hv. reflexivity. }
  assert (Hverified : env_step (VerifyTaskRuns 0) h2 = Some h3).
  { unfold env_step, asyncVerifySignature. simpl.
    change (set_snapshot _ _ _ _) with tx. fold group. rewrite Hgroup.
    rewrite (asyncVerifySignature_loop_stops pre tx txn post e
               (verifyCalls h) Hpre Htxn).
    simpl. rewrite Hp, chan_full_nil. reflexivity. }
  unfold one_message. cbn [run_moves].
  rewrite Hdeliver, Hcheck, Htake, Hverified.
  unfold backlogWorker_step. simpl.
  destruct h; simpl in *; subst; reflexivity.
Qed.

(** X11: A message whose group the fast-reject filter stops (the pool's test
    refuses it, or the ledger has no header) leaves no trace: after the
    worker has taken it from the backlog queue the handler is exactly as it
    was before the message came.  The verifier is never called for it,
    nothing is relayed, nobody is disconnected, no counter moves. *)
Theorem filtered_message_leaves_no_trace (Hprog : decoder_progresses)
    (h : TxHandler) (m : IncomingMessage) (recs : list SignedTxn) :
  backlogQueue h = [] ->
  postVerificationQueue h = [] ->
  decodes (Data m) recs EndEOF ->
  recs <> [] ->
  snd (checkAlreadyCommitted h (gossip_item m recs)) = true ->
  run_moves (take 3 (one_message m)) PriorityCheck h = Some (PriorityCheck, h).
Proof.
  intros Hb Hp Hdec Hne Hstop.
  set (h1 := set_backlogQueue [gossip_item m recs] h).
  assert (Hdeliver : env_step (GossipMessage m) h = Some h1).
  { unfold env_step.
    rewrite (processIncomingTxn_decoded Hprog _ m recs Hdec).
    destruct (decide (length recs = 0)) as [Hz|_];
      [now apply map_InitCaches_nonempty in Hne|].
    unfold try_enqueue_backlog. rewrite Hb, chan_full_nil. reflexivity. }
  assert (Hcheck : backlogWorker_step CaseBacklog PriorityCheck h1
                   = Some (EvDefault, (BlockingSelect, h1))).
  { unfold backlogWorker_step. simpl. now rewrite Hp. }
  assert (Htake : backlogWorker_step CaseBacklog BlockingSelect h1
                  = Some (EvBacklog (gossip_item m recs), (PriorityCheck, h))).
  { unfold backlogWorker_step. simpl.
    change (checkAlreadyCommitted (set_backlogQueue [] h1) (gossip_item m recs))
      with (checkAlreadyCommitted h (gossip_item m recs)).
    destruct (checkAlreadyCommitted h (gossip_item m recs)) as [wi' done].
    simpl in Hstop. subst done.
    destruct h; simpl in *; subst; reflexivity. }
  unfold one_message. cbn [take run_moves].
  rewrite Hdeliver. cbn [run_moves]. rewrite Hcheck, Htake. reflexivity.
Qed.

End Pipeline.

(** * Currency and round arithmetic *)

Section Units.
Import basics.
Local Open Scope N_scope.

(** X12: [SubSaturate] is the subtraction that stops at zero: for rounds in the
    uint64 range it never wraps around, never exceeds [round], and gives
    the exact difference whenever [x] is not above [round]. *)
Theorem SubSaturate_saturates (round x : Round) :
  is_uint64 round ->
  is_uint64 x ->
  SubSaturate round x = round - x /\
  SubSaturate round x <= round /\
  (x <= round -> SubSaturate round x + x = round) /\
  (round < x -> SubSaturate round x = 0).
Proof.
  unfold is_uint64, SubSaturate, uint64_sub. intros Hr Hx.
  destruct (N.ltb_spec round x) as [Hlt|Hge].
  - repeat split; lia.
  - assert (Heq : (round + uint64_modulus - x) mod uint64_modulus = round - x).
    { replace (round + uint64_modulus - x)
        with ((round - x) + 1 * uint64_modulus) by lia.
      rewrite N.Div0.mod_add. apply N.mod_small. lia. }
    rewrite Heq. repeat split; lia.
Qed.

(** X13: For a non-zero key dilution the identifier of a round determines the
    round: batch times dilution plus offset is the round, and the offset is
    below the dilution. *)
Theorem OneTimeIDForRound_reconstructs (round : Round) (keyDilution : N) :
  keyDilution <> 0 ->
  exists id,
    OneTimeIDForRound round keyDilution = Some id /\
    Batch id * keyDilution + Offset id = round /\
    Offset id < keyDilution /\
    Batch id <= round.
Proof.
  intros Hk. unfold OneTimeIDForRound.
  destruct (N.eqb_spec keyDilution 0) as [|_]; [contradiction|].
  eexists. split; [reflexivity|]. simpl.
  pose proof (N.div_mod round keyDilution Hk) as Hdm.
  pose proof (N.mod_lt round keyDilution Hk) as Hlt.
  repeat split; [lia | exact Hlt |].
  apply N.Div0.div_le_upper_bound. nia.
Qed.

(** X14: Two rounds with the same identifier under the same non-zero key
    dilution are the same round; with key dilution zero the function
    panics. *)
Theorem OneTimeIDForRound_injective (r1 r2 : Round) (keyDilution : N) :
  is_Some (OneTimeIDForRound r1 keyDilution) ->
  OneTimeIDForRound r1 keyDilution = OneTimeIDForRound r2 keyDilution ->
  keyDilution <> 0 /\ r1 = r2.
Proof.
  unfold OneTimeIDForRound.
  destruct (N.eqb_spec keyDilution 0) as [|Hk]; intros [id Hid] Heq;
    [discriminate|].
  split; [assumption|].
  injection Heq as Hb Ho.
  rewrite (N.div_mod r1 keyDilution Hk), (N.div_mod r2 keyDilution Hk).
  now rewrite Hb, Ho.
Qed.

(** X15: The reward units of an amount are its whole multiples of the reward
    unit: the remainder is less than one unit.  A reward unit of zero makes
    the division panic. *)
Theorem RewardUnits_bounds (a : MicroAlgos) (RewardUnit : N) :
  (RewardUnit = 0 /\ RewardUnits a RewardUnit = None) \/
  (exists units,
     RewardUnits a RewardUnit = Some units /\
     units * RewardUnit <= Raw a /\
     Raw a < (units + 1) * RewardUnit).
Proof.
  unfold RewardUnits.
  destruct (N.eqb_spec RewardUnit 0) as [->|Hu]; [left; auto|].
  right. eexists. split; [reflexivity|].
  pose proof (N.div_mod (Raw a) RewardUnit Hu) as Hdm.
  pose proof (N.mod_lt (Raw a) RewardUnit Hu) as Hlt.
  generalize dependent (Raw a / RewardUnit).
  generalize dependent (Raw a mod RewardUnit).
  intros r Hlt q Hdm. split; nia.
Qed.

End Units.

(** * Logic signatures *)

Section LogicSigFacts.
Import transactions.
Context {MultisigSig : Type}.
Variable MultisigSig_Equal : MultisigSig -> MultisigSig -> bool.

Local Abbreviation LogicSig := (@LogicSig MultisigSig).
Local Abbreviation Equal := (@Equal MultisigSig MultisigSig_Equal).

(** X16: [Len] is the number of bytes of the program and of all its arguments
    together. *)
Theorem Len_is_total_length (lsig : LogicSig) :
  Len lsig = length (Logic lsig ++ concat (Args lsig)).
Proof.
  unfold Len. generalize (Logic lsig) as logic.
  induction (Args lsig) as [|arg args IH]; intros logic; simpl.
  - now rewrite app_nil_r.
  - replace (length logic + length arg) with (length (logic ++ arg))
      by apply length_app.
    rewrite IH, <- app_assoc. reflexivity.
Qed.

Lemma Equal_loop_spec (args : list (list byte)) :
  forall (done bArgs : list (list byte)),
    length bArgs = length args ->
    Equal_loop (length done) args (done ++ bArgs)
    = Some (bool_decide (args = bArgs)).
Proof.
  induction args as [|a args IH]; intros done bArgs Hlen.
  - destruct bArgs; [|discriminate]. reflexivity.
  - destruct bArgs as [|b' bArgs]; [discriminate|]. simpl.
    rewrite lookup_app_r by lia. rewrite Nat.sub_diag. simpl.
    case_bool_decide as Hab.
    + subst b'. specialize (IH (done ++ [a]) bArgs).
      rewrite length_app, <- app_assoc in IH. simpl in IH.
      rewrite Nat.add_1_r in IH. rewrite IH by (simpl in Hlen; lia).
      f_equal. apply bool_decide_ext. split; congruence.
    + f_equal. symmetry. apply bool_decide_eq_false_2. congruence.
Qed.

Lemma Equal_value (lsig b : LogicSig) :
  Equal lsig b =
    Some (bool_decide (Logic lsig = [] /\ Logic b = [])
          || (bool_decide (Sig lsig = Sig b)
              && MultisigSig_Equal (Msig lsig) (Msig b)
              && bool_decide (Args lsig = Args b))).
Proof.
  unfold transactions.Equal.
  destruct (Logic lsig) as [|x l1], (Logic b) as [|y l2]; simpl;
    try reflexivity;
    (destruct (bool_decide (Sig lsig = Sig b)); simpl; [|reflexivity];
     destruct (MultisigSig_Equal (Msig lsig) (Msig b)); simpl; [|reflexivity];
     case_bool_decide as Hlen; simpl;
     [ pose proof (Equal_loop_spec (Args lsig) [] (Args b)
                     ltac:(congruence)) as Hloop;
       simpl in Hloop; rewrite Hloop; reflexivity
     | f_equal; symmetry; apply bool_decide_eq_false_2; congruence ]).
Qed.

(** X17: [Equal] never indexes out of range, and it answers true in exactly two
    cases: both programs are empty, or the signatures, the multisignatures
    and the argument lists agree. *)
Theorem Equal_characterised (lsig b : LogicSig) :
  exists r,
    Equal lsig b = Some r /\
    (r = true <->
     (Logic lsig = [] /\ Logic b = []) \/
     (Sig lsig = Sig b /\ MultisigSig_Equal (Msig lsig) (Msig b) = true /\
      Args lsig = Args b)).
Proof.
  eexists. split; [apply Equal_value|].
  rewrite orb_true_iff, !andb_true_iff, !bool_decide_eq_true. tauto.
Qed.

(** X18: With a reflexive and symmetric comparison of multisignatures, [Equal]
    is reflexive and symmetric. *)
Theorem Equal_reflexive_symmetric (lsig b : LogicSig) :
  (forall m, MultisigSig_Equal m m = true) ->
  (forall m1 m2, MultisigSig_Equal m1 m2 = MultisigSig_Equal m2 m1) ->
  Equal lsig lsig = Some true /\ Equal lsig b = Equal b lsig.
Proof.
  intros Hrefl Hsym. rewrite !Equal_value. split.
  - rewrite Hrefl.
    rewrite (bool_decide_eq_true_2 (Sig lsig = Sig lsig)) by reflexivity.
    rewrite (bool_decide_eq_true_2 (Args lsig = Args lsig)) by reflexivity.
    simpl. now rewrite orb_true_r.
  - rewrite (Hsym (Msig lsig) (Msig b)). f_equal. f_equal.
    + apply bool_decide_ext. tauto.
    + f_equal; [f_equal|]; apply bool_decide_ext; split; congruence.
Qed.

(** X19: [Equal] looks at the programs only to see whether they are empty: two
    signatures with different non-empty programs are equal as soon as their
    signatures, multisignatures and arguments agree. *)
Theorem Equal_ignores_program (lsig b : LogicSig) (logic : list byte) :
  Logic lsig <> [] ->
  logic <> [] ->
  Equal {| Logic := logic; Sig := Sig lsig; Msig := Msig lsig;
           Args := Args lsig |} b
  = Equal lsig b.
Proof.
  intros Hl Hl'. rewrite !Equal_value. simpl.
  rewrite (bool_decide_eq_false_2 (logic = [] /\ Logic b = [])) by tauto.
  rewrite (bool_decide_eq_false_2 (Logic lsig = [] /\ Logic b = [])) by tauto.
  reflexivity.
Qed.

End LogicSigFacts.

(** * The Ledger hardware-wallet driver *)

Section DriverBytes.
Import driver.
Local Open Scope N_scope.

Lemma to_N_byte_of_N (n : N) : Byte.to_N (byte_of_N n) = n mod 256.
Proof.
  unfold byte_of_N.
  pose proof (N.mod_lt n 256 ltac:(lia)) as Hlt.
  destruct (Byte.of_N (n mod 256)) as [b|] eqn:Hb; simpl.
  - now apply Byte.to_of_N.
  - apply Byte.of_N_None_iff in Hb. lia.
Qed.

Lemma byte_to_N_inj (b1 b2 : byte) : Byte.to_N b1 = Byte.to_N b2 -> b1 = b2.
Proof.
  intros Heq. pose proof (Byte.of_to_N b1) as H1.
  rewrite Heq, Byte.of_to_N in H1. congruence.
Qed.

Lemma le_uint_uint64le (i : N) : le_uint (uint64le i) = i mod 2 ^ 64.
Proof.
  unfold uint64le, PutUint64. cbn [le_uint].
  rewrite !to_N_byte_of_N, !N.shiftr_div_pow2.
  change (2 ^ 8) with 256.
  change (2 ^ 16) with (256 * 256).
  change (2 ^ 24) with (256 * 256 * 256).
  change (2 ^ 32) with (256 * 256 * 256 * 256).
  change (2 ^ 40) with (256 * 256 * 256 * 256 * 256).
  change (2 ^ 48) with (256 * 256 * 256 * 256 * 256 * 256).
  change (2 ^ 56) with (256 * 256 * 256 * 256 * 256 * 256 * 256).
  change (2 ^ 64) with (256 * (256 * (256 * (256 * (256 * (256 * (256 * 256))))))).
  rewrite <- !N.Div0.div_div.
  rewrite !N.Div0.mod_mul_r.
  rewrite !N.mul_0_r, !N.add_0_r. reflexivity.
Qed.

(** X20: [uint64le] writes eight bytes, least significant first: reading them
    back little-endian gives the number again, so different uint64 values
    have different encodings. *)
Theorem uint64le_round_trip (i j : N) :
  basics.is_uint64 i ->
  basics.is_uint64 j ->
  length (uint64le i) = 8%nat /\
  le_uint (uint64le i) = i /\
  (uint64le i = uint64le j -> i = j).
Proof.
  unfold basics.is_uint64, basics.uint64_modulus. intros Hi Hj.
  split; [reflexivity|].
  assert (Hrt : forall k, k < 2 ^ 64 -> le_uint (uint64le k) = k).
  { intros k Hk. rewrite le_uint_uint64le. now apply N.mod_small. }
  split; [now apply Hrt|].
  intros Heq. rewrite <- (Hrt i Hi), <- (Hrt j Hj). now rewrite Heq.
Qed.

End DriverBytes.

Section DriverFacts.
Import driver.
Context {Dev : Type}.
Variable Exchange : Dev -> list byte -> Dev * list byte * option Error.
Variable USBInfo : Dev -> USBInfo_t.
Variable EncodeTx : Transaction -> list byte.
Variable EncodeSignedTxn : Transaction -> Signature -> list byte.
Context {MsigHeader : Type}.

Local Abbreviation LedgerWallet := (@LedgerWallet Dev).
Local Abbreviation MultisigSig := (@MultisigSig MsigHeader).
Local Abbreviation sendTransactionMsgpack :=
  (@sendTransactionMsgpack Dev Exchange EncodeTx).
Local Abbreviation sendTransactionOldStyle :=
  (@sendTransactionOldStyle Dev Exchange).
Local Abbreviation signTransactionHelper :=
  (@signTransactionHelper Dev Exchange EncodeTx).

(** ** Chunks *)

Lemma chunked_exists (n : nat) :
  forall l, length l <= n -> exists cs, chunked l cs.
Proof.
  induction n as [n IH] using lt_wf_ind. intros l Hn.
  destruct (decide (chunkSize < length l)) as [Hbig|Hsmall].
  - destruct (IH (length (drop chunkSize l))) with (l := drop chunkSize l)
      as [cs Hcs].
    + rewrite length_drop. unfold chunkSize in *. lia.
    + reflexivity.
    + exists (take chunkSize l :: cs). now apply chunked_more.
  - eexists. apply chunked_last. lia.
Qed.

Lemma chunked_facts l cs :
  chunked l cs ->
  concat cs = l /\
  Forall (fun c => length c <= chunkSize) cs /\
  length cs = (if decide (length l = 0) then 1
               else (length l + (chunkSize - 1)) / chunkSize) /\
  (forall i c, S i < length cs -> cs !! i = Some c -> length c = chunkSize).
Proof.
  induction 1 as [l Hl | l cs Hbig Hcs (IHc & IHb & IHn & IHf)].
  - repeat split.
    + simpl. apply app_nil_r.
    + constructor; [exact Hl | constructor].
    + cbn [length]. case_decide as Hz; [reflexivity|].
      unfold chunkSize in *.
      apply Nat.div_unique with (r := length l - 1); lia.
    + cbn [length]. intros i c Hi. lia.
  - assert (Htake : length (take chunkSize l) = chunkSize)
      by (rewrite length_take; lia).
    repeat split.
    + simpl. rewrite IHc. apply take_drop.
    + constructor; [lia | assumption].
    + cbn [length]. rewrite IHn, length_drop.
      destruct (decide (length l = 0)) as [Hz|Hz];
        [unfold chunkSize in *; lia|].
      destruct (decide (length l - chunkSize = 0)) as [Hz'|Hz'];
        [unfold chunkSize in *; lia|].
      unfold chunkSize in *.
      replace (length l + (250 - 1))
        with (length l - 250 + (250 - 1) + 1 * 250) by lia.
      rewrite Nat.div_add by lia. lia.
    + intros [|i] c Hi Hc; cbn [length] in Hi; simpl in Hc.
      * now injection Hc as <-.
      * apply (IHf i c); [lia | assumption].
Qed.

Lemma uint8_chunk_length (c : list byte) :
  length c <= chunkSize -> Byte.to_nat (uint8 (length c)) = length c.
Proof.
  intros Hc. unfold uint8.
  rewrite Byte.to_nat_via_N, to_N_byte_of_N.
  rewrite N.mod_small; [lia|]. unfold chunkSize in Hc. lia.
Qed.

(** ** sendTransactionMsgpack *)

Lemma apdus_cons p1 c c' cs :
  apdus p1 (c :: c' :: cs)
  = apdu p1 ledgerP2more c :: apdus ledgerP1more (c' :: cs).
Proof. reflexivity. Qed.

(** The loop against [chunked]: the messages that go to the device are a
    prefix of the messages of the chunks, and all of them unless the
    device reports an error. *)
Lemma sendTransactionMsgpack_loop_spec tosend cs :
  chunked tosend cs ->
  forall fuel lw p1 reply0,
    length tosend + 2 <= fuel ->
    exists lw' reply err msgs,
      sendTransactionMsgpack_loop Exchange fuel lw tosend p1 ledgerP2more reply0
      = Some (lw', reply, err) /\
      exchanged lw' = exchanged lw ++ msgs /\
      msgs `prefix_of` apdus p1 cs /\
      msgs <> [] /\
      (err = None -> msgs = apdus p1 cs).
Proof.
  induction 1 as [l Hl | l cs Hbig Hcs IH]; intros fuel lw p1 reply0 Hfuel.
  - destruct fuel as [|[|fuel]]; [lia | lia |].
    cbn [sendTransactionMsgpack_loop]. change (Byte.eqb ledgerP2more ledgerP2last) with false.
    cbv iota. destruct (decide (chunkSize < length l)) as [?|_]; [lia|].
    unfold dev_Exchange.
    destruct (Exchange (dev lw) _) as [[d reply] [e|]];
      change (Byte.eqb ledgerP2last ledgerP2last) with true; cbv iota;
      do 4 eexists; (split; [reflexivity|]); simpl;
      (split; [reflexivity|]); repeat split; try done.
  - destruct fuel as [|fuel]; [lia|].
    cbn [sendTransactionMsgpack_loop]. change (Byte.eqb ledgerP2more ledgerP2last) with false.
    cbv iota. destruct (decide (chunkSize < length l)) as [_|?]; [|lia].
    assert (Htake : length (take chunkSize l) = chunkSize)
      by (rewrite length_take; lia).
    unfold dev_Exchange.
    assert (Hcs' : exists c' cs', cs = c' :: cs').
    { inversion Hcs; eauto. }
    destruct Hcs' as (c' & cs' & ->).
    destruct (Exchange (dev lw) _) as [[d reply] [e|]].
    + exists {| dev := d;
                exchanged :=
                  exchanged lw ++ [apdu p1 ledgerP2more (take chunkSize l)] |},
        reply, (Some e), [apdu p1 ledgerP2more (take chunkSize l)].
      rewrite apdus_cons. repeat split; try done.
      apply prefix_cons, prefix_nil.
    + replace (drop (length (take chunkSize l)) l) with (drop chunkSize l)
        by now rewrite Htake.
      destruct (IH fuel {| dev := d; exchanged := exchanged lw ++ [apdu p1 ledgerP2more (take chunkSize l)] |}
                  ledgerP1more reply)
        as (lw' & reply' & err & msgs & Hloop & Hex & Hpre & Hne & Hall).
      { rewrite length_drop. unfold chunkSize in *. lia. }
      exists lw', reply', err, (apdu p1 ledgerP2more (take chunkSize l) :: msgs).
      split; [exact Hloop|]. simpl in Hex. rewrite Hex, <- app_assoc.
      split; [reflexivity|]. rewrite apdus_cons.
      repeat split; [now apply prefix_cons | done |].
      intros He. now rewrite (Hall He).
Qed.

(** X21: [sendTransactionMsgpack] always returns.  It cuts the encoded
    transaction into chunks of at most 250 bytes, as few as possible (one
    empty chunk for an empty encoding), all full except the last.  The
    messages it sends carry these chunks in order; the first message is
    marked first and the last one last; it stops sending at the first
    error of the device, and without an error every chunk has been sent. *)
Theorem sendTransactionMsgpack_chunks (lw : LedgerWallet) (tx : Transaction) :
  exists chunks lw' sig err msgs,
    sendTransactionMsgpack lw tx = Some (lw', sig, err) /\
    concat chunks = EncodeTx tx /\
    Forall (fun c => length c <= chunkSize) chunks /\
    length chunks =
      (if decide (length (EncodeTx tx) = 0) then 1
       else (length (EncodeTx tx) + (chunkSize - 1)) / chunkSize) /\
    (forall i c,
       S i < length chunks -> chunks !! i = Some c -> length c = chunkSize) /\
    exchanged lw' = exchanged lw ++ msgs /\
    msgs `prefix_of` apdus ledgerP1first chunks /\
    msgs <> [] /\
    (err = None -> msgs = apdus ledgerP1first chunks).
Proof.
  destruct (chunked_exists (length (EncodeTx tx)) (EncodeTx tx) (le_n _))
    as [chunks Hchunks].
  destruct (chunked_facts _ _ Hchunks) as (Hc & Hb & Hn & Hf).
  destruct (sendTransactionMsgpack_loop_spec _ _ Hchunks
              (S (S (length (EncodeTx tx)))) lw ledgerP1first [] ltac:(lia))
    as (lw' & reply & err & msgs & Hloop & Hex & Hpre & Hne & Hall).
  unfold driver.sendTransactionMsgpack. rewrite Hloop.
  destruct err as [e|].
  - exists chunks, lw', Signature_zero, (Some e), msgs. repeat split; auto.
  - destruct (decide (length Signature_zero < length reply)).
    + exists chunks, lw', Signature_zero,
        (Some (ErrorString
                 (String.string_of_list_byte
                    (drop (length Signature_zero + 1) reply)))), msgs.
      repeat split; auto.
    + exists chunks, lw', (copy Signature_zero reply), None, msgs.
      repeat split; auto.
Qed.

(** ** Signatures *)

Lemma length_copy (dst src : list byte) : length (copy dst src) = length dst.
Proof.
  unfold copy. rewrite length_app, length_take, length_drop. lia.
Qed.

Lemma sendTransactionOldStyle_signature lw tx lw' sig err :
  sendTransactionOldStyle lw tx = (lw', sig, err) ->
  length sig = 64 /\ (is_Some err -> sig = Signature_zero).
Proof.
  unfold driver.sendTransactionOldStyle, dev_Exchange.
  destruct (Type_ tx);
    repeat match goal with
           | |- context [if ?b then _ else _] => destruct b
           | |- context [Exchange ?d ?m] =>
               destruct (Exchange d m) as [[? ?] [?|]]
           end;
    intros [= <- <- <-];
    (split; [try reflexivity; apply length_copy
            | try reflexivity; intros [? [=]]]).
Qed.

Lemma sendTransactionMsgpack_signature lw tx lw' sig err :
  sendTransactionMsgpack lw tx = Some (lw', sig, err) ->
  length sig = 64 /\ (is_Some err -> sig = Signature_zero).
Proof.
  unfold driver.sendTransactionMsgpack.
  destruct (sendTransactionMsgpack_loop _ _ _ _ _ _ _)
    as [[[lw1 reply] [e|]]|]; [| |discriminate].
  - intros [= <- <- <-]. split; reflexivity.
  - destruct (decide _); intros [= <- <- <-].
    + split; reflexivity.
    + split; [apply length_copy | intros [? [=]]].
Qed.

(** X22: Whatever the device answers, the signature that
    [signTransactionHelper] returns has 64 bytes, and it is the zero
    signature whenever an error is returned with it. *)
Theorem signTransactionHelper_signature lw tx lw' sig err :
  signTransactionHelper lw tx = Some (lw', sig, err) ->
  length sig = 64 /\ (is_Some err -> sig = Signature_zero).
Proof.
  unfold driver.signTransactionHelper.
  destruct (sendTransactionMsgpack lw tx) as [[[lw1 sig1] err1]|] eqn:Hm;
    [|discriminate].
  pose proof (sendTransactionMsgpack_signature _ _ _ _ _ Hm) as Hsig1.
  destruct err1 as [e|]; [|now intros [= <- <- <-]].
  destruct e as [| | |code|msg]; try (now intros [= <- <- <-]).
  destruct (code =? 27904)%N; [|now intros [= <- <- <-]].
  intros [= Hold]. exact (sendTransactionOldStyle_signature _ _ _ _ _ Hold).
Qed.

(** X23: The old-style request is refused before anything is sent to the
    device when the transaction is neither a payment nor a key
    registration, when it has a note, or when its genesis ID is longer
    than 32 bytes. *)
Theorem sendTransactionOldStyle_refuses (lw : LedgerWallet) (tx : Transaction) :
  (exists name, Type_ tx = OtherTx name) \/
  Note tx <> [] \/
  32 < String.length (GenesisID tx) ->
  exists e, sendTransactionOldStyle lw tx = (lw, Signature_zero, Some e).
Proof.
  unfold driver.sendTransactionOldStyle.
  intros [[name Hty] | [Hnote | Hgen]].
  - rewrite Hty. eauto.
  - destruct (Type_ tx); eauto;
      (rewrite bool_decide_eq_false_2;
       [simpl; eauto | now destruct (Note tx)]).
  - destruct (Type_ tx); eauto;
      (destruct (negb _); [eauto|]);
      (destruct (decide _) as [_|Hn];
       [eauto | rewrite length_replicate in Hn; lia]).
Qed.

Lemma length_list_byte_of_string (s : string) :
  length (String.list_byte_of_string s) = String.length s.
Proof.
  unfold String.list_byte_of_string. rewrite length_map.
  induction s as [|a s IH]; simpl; congruence.
Qed.

Lemma field_at (msg a b c : list byte) (n m : nat) :
  msg = a ++ b ++ c -> length a = n -> length b = m ->
  take m (drop n msg) = b.
Proof.
  intros -> <- <-. rewrite drop_app_length. apply take_app_length.
Qed.

(** X24: The old-style request of a payment or key registration without note
    is one message of fixed layout: class and instruction, the sender at
    offset 2, fee, first and last valid round as little-endian uint64 at
    offsets 34, 42 and 50, the genesis ID padded with zero bytes to 32
    bytes at offset 58, the genesis hash at offset 90, and then 72 bytes
    for a payment or 64 bytes for a key registration: 194 or 186 bytes in
    all. *)
Theorem sendTransactionOldStyle_layout (lw : LedgerWallet) (tx : Transaction) :
  Type_ tx = PaymentTx \/ Type_ tx = KeyRegistrationTx ->
  Note tx = [] ->
  String.length (GenesisID tx) <= 32 ->
  length (Sender tx) = 32 ->
  length (GenesisHash tx) = 32 ->
  length (Receiver tx) = 32 ->
  length (CloseRemainderTo tx) = 32 ->
  length (VotePK tx) = 32 ->
  length (SelectionPK tx) = 32 ->
  exists msg lw' sig err,
    sendTransactionOldStyle lw tx = (lw', sig, err) /\
    exchanged lw' = exchanged lw ++ [msg] /\
    length msg = (match Type_ tx with PaymentTx => 194 | _ => 186 end) /\
    take 2 msg =
      [ledgerClass;
       match Type_ tx with
       | PaymentTx => ledgerInsSignPaymentV2
       | _ => ledgerInsSignKeyregV2
       end] /\
    take 32 (drop 2 msg) = Sender tx /\
    take 8 (drop 34 msg) = uint64le (basics.Raw (Fee tx)) /\
    take 8 (drop 42 msg) = uint64le (FirstValid tx) /\
    take 8 (drop 50 msg) = uint64le (LastValid tx) /\
    take 32 (drop 58 msg) =
      String.list_byte_of_string (GenesisID tx)
        ++ replicate (32 - String.length (GenesisID tx)) x00 /\
    take 32 (drop 90 msg) = GenesisHash tx.
Proof.
  intros Hty Hnote Hgen Hs Hgh Hr Hc Hv Hsel.
  assert (Hgenbuf :
            copy (replicate 32 x00) (String.list_byte_of_string (GenesisID tx))
            = String.list_byte_of_string (GenesisID tx)
                ++ replicate (32 - String.length (GenesisID tx)) x00).
  { unfold copy. rewrite length_replicate, length_list_byte_of_string.
    rewrite take_ge by (rewrite length_list_byte_of_string; lia).
    now rewrite drop_replicate. }
  set (genbuf := String.list_byte_of_string (GenesisID tx)
                   ++ replicate (32 - String.length (GenesisID tx)) x00) in *.
  assert (Hlen : length genbuf = 32).
  { subst genbuf. rewrite length_app, length_replicate,
      length_list_byte_of_string. lia. }
  set (tail := match Type_ tx with
               | PaymentTx =>
                   Receiver tx ++ uint64le (basics.Raw (Amount tx))
                     ++ CloseRemainderTo tx
               | _ => VotePK tx ++ SelectionPK tx
               end).
  set (ins := match Type_ tx with
              | PaymentTx => ledgerInsSignPaymentV2
              | _ => ledgerInsSignKeyregV2
              end).
  set (msg := [ledgerClass; ins] ++ Sender tx
                ++ uint64le (basics.Raw (Fee tx))
                ++ uint64le (FirstValid tx) ++ uint64le (LastValid tx)
                ++ genbuf ++ GenesisHash tx ++ tail).
  assert (Hrun : exists lw' sig err,
             sendTransactionOldStyle lw tx = (lw', sig, err) /\
             exchanged lw' = exchanged lw ++ [msg]).
  { unfold driver.sendTransactionOldStyle, dev_Exchange.
    rewrite Hnote. simpl negb. cbv iota.
    destruct (decide (length (replicate 32 x00) < String.length (GenesisID tx)))
      as [Hbad|_]; [rewrite length_replicate in Hbad; lia|].
    rewrite Hgenbuf. subst msg ins tail.
    destruct Hty as [-> | ->]; simpl;
      rewrite <- ?app_assoc; simpl;
      match goal with
      | |- context [Exchange ?d ?m] =>
          destruct (Exchange d m) as [[? ?] [?|]]
      end; do 3 eexists; split; reflexivity. }
  destruct Hrun as (lw' & sig & err & Hrun & Hex).
  exists msg, lw', sig, err. split; [exact Hrun|]. split; [exact Hex|].
  assert (Htail : length tail
                  = match Type_ tx with PaymentTx => 72 | _ => 64 end).
  { subst tail. destruct Hty as [-> | ->]; cbv iota;
      rewrite !length_app, ?Hr, ?Hc, ?Hv, ?Hsel; reflexivity. }
  split.
  { subst msg. rewrite !length_app, Hs, Hgh, Hlen, Htail. simpl.
    destruct (Type_ tx); reflexivity. }
  split; [reflexivity|].
  set (fee := uint64le (basics.Raw (Fee tx))) in *.
  set (fv := uint64le (FirstValid tx)) in *.
  set (lv := uint64le (LastValid tx)) in *.
  assert (Hfee : length fee = 8) by reflexivity.
  assert (Hfv : length fv = 8) by reflexivity.
  assert (Hlv : length lv = 8) by reflexivity.
  repeat split.
  - apply (field_at msg [ledgerClass; ins] _
             (fee ++ fv ++ lv ++ genbuf ++ GenesisHash tx ++ tail));
      [reflexivity | reflexivity | exact Hs].
  - apply (field_at msg ([ledgerClass; ins] ++ Sender tx) _
             (fv ++ lv ++ genbuf ++ GenesisHash tx ++ tail));
      [subst msg; now rewrite <- !app_assoc
      | rewrite !length_app, Hs; reflexivity | exact Hfee].
  - apply (field_at msg ([ledgerClass; ins] ++ Sender tx ++ fee) _
             (lv ++ genbuf ++ GenesisHash tx ++ tail));
      [subst msg; now rewrite <- !app_assoc
      | rewrite !length_app, Hs, Hfee; reflexivity | exact Hfv].
  - apply (field_at msg ([ledgerClass; ins] ++ Sender tx ++ fee ++ fv) _
             (genbuf ++ GenesisHash tx ++ tail));
      [subst msg; now rewrite <- !app_assoc
      | rewrite !length_app, Hs, Hfee, Hfv; reflexivity | exact Hlv].
  - apply (field_at msg ([ledgerClass; ins] ++ Sender tx ++ fee ++ fv ++ lv) _
             (GenesisHash tx ++ tail));
      [subst msg; now rewrite <- !app_assoc
      | rewrite !length_app, Hs, Hfee, Hfv, Hlv; reflexivity | exact Hlen].
  - apply (field_at msg
             ([ledgerClass; ins] ++ Sender tx ++ fee ++ fv ++ lv ++ genbuf) _
             tail);
      [subst msg; now rewrite <- !app_assoc
      | rewrite !length_app, Hs, Hfee, Hfv, Hlv, Hlen; reflexivity
      | exact Hgh].
Qed.

(** ** Multisignatures and programs *)

Local Abbreviation MultisigSignTransaction :=
  (@MultisigSignTransaction Dev Exchange EncodeTx MsigHeader).
Local Abbreviation MultisigSignProgram :=
  (@MultisigSignProgram Dev MsigHeader).

Lemma isValidKey_loop_spec (pk : PublicKey) (subsigs : list MultisigSubsig)
    (n : nat) :
  forall i,
    isValidKey_loop n i pk subsigs = true <->
    exists j s, i <= j < i + n /\ subsigs !! j = Some s /\ Key s = pk.
Proof.
  induction n as [|n IH]; intros i; simpl.
  - split; [discriminate | intros (j & s & Hj & _); lia].
  - destruct (subsigs !! i) as [s|] eqn:Hi.
    + destruct (decide (Key s = pk)) as [Hk|Hk].
      * split; [|reflexivity]. intros _. exists i, s. split; [lia | auto].
      * rewrite IH. split; intros (j & s' & Hj & Hs' & Hk').
        -- exists j, s'. split; [lia | auto].
        -- exists j, s'. split; [|auto].
           destruct (decide (j = i)) as [->|]; [congruence | lia].
    + split; [discriminate|]. intros (j & s & Hj & Hs & _).
      apply lookup_ge_None in Hi. apply lookup_lt_Some in Hs. lia.
Qed.

Lemma isValidKey_elem_of (pk : PublicKey) (subsigs : list MultisigSubsig) :
  isValidKey_loop (length subsigs) 0 pk subsigs = true <->
  pk ∈ map Key subsigs.
Proof.
  rewrite isValidKey_loop_spec. split.
  - intros (j & s & _ & Hs & <-).
    apply (list_elem_of_fmap_2 Key). eapply list_elem_of_lookup_2, Hs.
  - intros Hin. apply list_elem_of_fmap in Hin as (s & -> & Hs).
    apply list_elem_of_lookup in Hs as [j Hj].
    exists j, s. pose proof (lookup_lt_Some _ _ _ Hj). split; [lia | auto].
Qed.

Lemma setSig_loop_lookup (pk : PublicKey) (sig : Signature) (n : nat) :
  forall i (subsigs : list MultisigSubsig) j,
    setSig_loop n i pk sig subsigs !! j
    = if decide (i <= j < i + n) then signed_by pk sig <$> subsigs !! j
      else subsigs !! j.
Proof.
  induction n as [|n IH]; intros i subsigs j; simpl.
  - case_decide; [lia | reflexivity].
  - destruct (subsigs !! i) as [s|] eqn:Hi.
    + rewrite IH.
      set (subsigs' := if decide (Key s = pk)
                       then <[i := {| Key := Key s; Sig := sig |}]> subsigs
                       else subsigs).
      assert (Hi' : subsigs' !! i = Some (signed_by pk sig s)).
      { subst subsigs'. unfold signed_by.
        destruct (decide (Key s = pk)); [|assumption].
        apply list_lookup_insert_eq. eapply lookup_lt_Some, Hi. }
      assert (Hj' : j <> i -> subsigs' !! j = subsigs !! j).
      { intros Hne. subst subsigs'.
        destruct (decide (Key s = pk)); [|reflexivity].
        now apply list_lookup_insert_ne. }
      destruct (decide (j = i)) as [->|Hne].
      * rewrite Hi', Hi. repeat case_decide; try lia. reflexivity.
      * rewrite (Hj' Hne). repeat case_decide; try lia; reflexivity.
    + case_decide as Hj; [|reflexivity].
      apply lookup_ge_None in Hi.
      rewrite (lookup_ge_None_2 subsigs j) by lia. reflexivity.
Qed.

Lemma setSig_loop_map (pk : PublicKey) (sig : Signature)
    (subsigs : list MultisigSubsig) :
  setSig_loop (length subsigs) 0 pk sig subsigs
  = map (signed_by pk sig) subsigs.
Proof.
  apply list_eq. intros j. rewrite setSig_loop_lookup, list_lookup_fmap.
  case_decide as Hj; [reflexivity|].
  rewrite (lookup_ge_None_2 subsigs j) by lia. reflexivity.
Qed.

(** X25: A multisignature that has no subsignature for the key is returned as
    it is, with the error for a wrong key, and nothing is sent to the
    device. *)
Theorem MultisigSignTransaction_wrong_key
    (lw : LedgerWallet) (tx : Transaction) (pk : PublicKey)
    (partial : MultisigSig) :
  pk ∉ map Key (Subsigs partial) ->
  MultisigSignTransaction lw tx pk partial
  = Some (lw, partial, Some errMsigWrongKey).
Proof.
  intros Hpk. unfold driver.MultisigSignTransaction.
  destruct (isValidKey_loop _ _ _ _) eqn:Hvalid; [|reflexivity].
  now apply isValidKey_elem_of in Hvalid.
Qed.

(** X26: When the key is among the subsignatures and the device signs, the
    result has the same keys in the same order, every subsignature of the
    key carries the new signature, and all other subsignatures are as
    before.  When signing fails the multisignature is returned as it is,
    with the error. *)
Theorem MultisigSignTransaction_signs
    (lw lw' : LedgerWallet) (tx : Transaction) (pk : PublicKey)
    (partial : MultisigSig) (sig : Signature) (err : option Error) :
  pk ∈ map Key (Subsigs partial) ->
  signTransactionHelper lw tx = Some (lw', sig, err) ->
  exists partial',
    MultisigSignTransaction lw tx pk partial = Some (lw', partial', err) /\
    msig_header partial' = msig_header partial /\
    map Key (Subsigs partial') = map Key (Subsigs partial) /\
    (is_Some err -> partial' = partial) /\
    (err = None ->
     forall i s,
       Subsigs partial !! i = Some s ->
       Subsigs partial' !! i
       = Some (if decide (Key s = pk) then {| Key := Key s; Sig := sig |}
               else s)).
Proof.
  intros Hpk Hsign. unfold driver.MultisigSignTransaction.
  apply isValidKey_elem_of in Hpk. rewrite Hpk, Hsign. simpl.
  destruct err as [e|].
  - exists partial. split; [reflexivity|]. repeat split. discriminate.
  - eexists. split; [reflexivity|]. simpl. rewrite setSig_loop_map.
    repeat split.
    + rewrite <- list_fmap_compose. apply list_fmap_ext.
      intros i s _. unfold signed_by. simpl. now destruct (decide _).
    + intros [e [=]].
    + intros _ i s Hs. rewrite list_lookup_fmap, Hs. reflexivity.
Qed.

(** X27: Signing a program is not implemented: [SignProgram] and
    [MultisigSignProgram] always return an error, they never send
    anything to the device, and the multisignature comes back as it
    was. *)
Theorem program_signing_always_fails
    (lw : LedgerWallet) (data : list byte) (pk : PublicKey)
    (partial : MultisigSig) :
  (exists e, SignProgram lw data = (lw, inr e)) /\
  (exists e, MultisigSignProgram lw data pk partial = (lw, partial, Some e)) /\
  (pk ∉ map Key (Subsigs partial) ->
   MultisigSignProgram lw data pk partial = (lw, partial, Some errMsigWrongKey)).
Proof.
  unfold SignProgram, driver.MultisigSignProgram, signProgramHelper.
  repeat split; [eauto | |].
  - destruct (isValidKey_loop _ _ _ _); simpl; eauto.
  - intros Hpk.
    destruct (isValidKey_loop _ _ _ _) eqn:Hvalid; [|reflexivity].
    now apply isValidKey_elem_of in Hvalid.
Qed.

(** ** Keys and wallets *)

(** X28: [ListKeys] sends the one get-public-key message and, unless the
    device reports an error, returns exactly one key of 32 bytes: the
    first 32 bytes of the reply, padded with zero bytes if the reply is
    shorter. *)
Theorem ListKeys_one_key (lw : LedgerWallet) :
  exists d reply err,
    Exchange (dev lw) [x80; x03; x00; x00; x00] = (d, reply, err) /\
    ListKeys Exchange lw =
      ({| dev := d;
          exchanged := exchanged lw ++ [[x80; x03; x00; x00; x00]] |},
       match err with
       | Some e => inr e
       | None =>
           inl [take 32 reply ++ replicate (32 - length reply) x00]
       end) /\
    length (take 32 reply ++ replicate (32 - length reply) x00) = 32.
Proof.
  unfold ListKeys, dev_Exchange.
  change [ledgerClass; ledgerInsGetPublicKey; x00; x00; x00]
    with [x80; x03; x00; x00; x00].
  destruct (Exchange (dev lw) _) as [[d reply] err].
  exists d, reply, err. split; [reflexivity|]. split.
  - destruct err; [reflexivity|].
    unfold copy, Digest_zero. now rewrite length_replicate, drop_replicate.
  - rewrite length_app, length_take, length_replicate. lia.
Qed.

Lemma wallets_fold_lookup (devs : list Dev) :
  forall (m : gmap string LedgerWallet) (p : string),
    fold_left
      (fun wallets d =>
         <[Path (USBInfo d) := {| dev := d; exchanged := [] |}]> wallets)
      devs m !! p
    = match last (filter (fun d => Path (USBInfo d) = p) devs) with
      | Some d => Some {| dev := d; exchanged := [] |}
      | None => m !! p
      end.
Proof.
  induction devs as [|d devs IH]; intros m p; simpl; [reflexivity|].
  rewrite IH. rewrite filter_cons.
  destruct (decide (Path (USBInfo d) = p)) as [<-|Hne].
  - rewrite last_cons, lookup_insert_eq.
    now destruct (last (filter _ devs)).
  - rewrite lookup_insert_ne by assumption. reflexivity.
Qed.

(** X29: After a successful [InitWithConfig] the driver knows exactly the
    enumerated devices: [FetchWallet] finds a wallet for an id that is the
    path of a device (the last one enumerated under that path, with
    nothing sent to it yet) and answers wallet-not-found for every other
    id, whatever wallets the driver had before.  A failed enumeration
    leaves the driver as it was. *)
Theorem FetchWallet_after_InitWithConfig
    (lwd : LedgerWalletDriver (Dev := Dev)) (devs : list Dev)
    (id : list byte) (e : Error) :
  snd (InitWithConfig USBInfo lwd (inl devs)) = None /\
  FetchWallet (fst (InitWithConfig USBInfo lwd (inl devs))) id =
    match last (filter (fun d => Path (USBInfo d)
                                 = String.string_of_list_byte id) devs) with
    | Some d => inl {| dev := d; exchanged := [] |}
    | None => inr errWalletNotFound
    end /\
  InitWithConfig USBInfo lwd (inr e) = (lwd, Some e).
Proof.
  split; [reflexivity|]. split; [|reflexivity].
  unfold FetchWallet, InitWithConfig. simpl.
  rewrite wallets_fold_lookup, lookup_empty.
  now destruct (last _).
Qed.

End DriverFacts.

(** * The further properties on the small instances *)

Lemma Examples_relayed_reachable : reachable PriorityCheck Examples.relayed.
Proof.
  apply (run_moves_reachable (one_message Toy.msg_good) PriorityCheck Toy.h0).
  - apply reach_start.
  - vm_compute. reflexivity.
Qed.

Lemma Examples_stopped_reachable : reachable Returned Examples.stopped.
Proof.
  apply (run_moves_reachable Examples.stop_moves PriorityCheck Toy.h0).
  - apply reach_start.
  - vm_compute. reflexivity.
Qed.

Lemma Toy_codec_round_trip :
  Forall (fun s : @SignedTxn Toy.collaborators =>
            forall rest, Decode (Encode s ++ rest) = DecOk s rest)
    Toy.solicited_group.
Proof. repeat constructor. Qed.

(** In [Toy.raced] both queues hold one item. *)
Lemma queues_within_capacity_witness :
  reachable BlockingSelect Toy.raced /\
  length (backlogQueue Toy.raced) <= txBacklogSize /\
  length (postVerificationQueue Toy.raced) <= txBacklogSize.
Proof.
  split; [exact Toy_raced_reachable|].
  exact (queues_within_capacity _ _ Toy_raced_reachable).
Defined.

Lemma queued_groups_nonempty_witness :
  reachable BlockingSelect Toy.raced /\
  Forall (fun tx => unverifiedTxGroup tx <> []) (backlogQueue Toy.raced) /\
  Forall (fun tx => unverifiedTxGroup tx <> [])
    (postVerificationQueue Toy.raced).
Proof.
  split; [exact Toy_raced_reachable|].
  destruct (queued_groups_nonempty _ _ Toy_raced_reachable) as (Hb & _ & Hp).
  split; assumption.
Defined.

(** After one good message: one relay, counter at one. *)
Lemma relays_are_counted_witness :
  reachable PriorityCheck Examples.relayed /\
  relay_count (net Examples.relayed) = 1 /\
  relay_count (net Examples.relayed)
  <= transactionMessagesHandled Examples.relayed.
Proof.
  split; [exact Examples_relayed_reachable|]. split; [reflexivity|].
  exact (relays_are_counted _ _ Examples_relayed_reachable).
Defined.

Lemma worker_returns_only_after_stop_witness :
  reachable Returned Examples.stopped /\
  ctxDone Examples.stopped = true.
Proof.
  split; [exact Examples_stopped_reachable|].
  exact (proj1 (worker_returns_only_after_stop _ Examples_stopped_reachable)).
Defined.

(** The toy pool refuses payload 7. *)
Lemma postprocess_refusal_is_silent_witness :
  verificationErr Examples.verified_feelow = None /\
  txPool_Remember (txPool Toy.h0) (unverifiedTxGroup Examples.verified_feelow)
  = ([], Some "fee too low") /\
  exists handler' : @TxHandler Toy.collaborators,
    postprocessCheckedTxn Toy.h0 Examples.verified_feelow = Some handler' /\
    net handler' = [] /\
    transactionMessagesHandled handler' = 1.
Proof.
  split; [reflexivity|]. split; [reflexivity|].
  destruct (postprocess_refusal_is_silent Toy.h0 Examples.verified_feelow
              [] "fee too low" eq_refl eq_refl)
    as (handler' & Hpost & Hnet & _ & Hcount & _).
  exists handler'. repeat split; assumption.
Defined.

Lemma Handle_invalid_keeps_pool_witness :
  checkAlreadyCommitted Toy.h0 (solicited_item Examples.solicited_bad)
  = (Examples.solicited_bad_checked, false) /\
  snd (Handle Toy.h0 Examples.solicited_bad) = Some "invlid transaction" /\
  txPool (fst (Handle Toy.h0 Examples.solicited_bad)) = [] /\
  length (verifyCalls (fst (Handle Toy.h0 Examples.solicited_bad))) = 2.
Proof.
  split; [reflexivity|].
  destruct (Handle_invalid_keeps_pool Toy.h0 Examples.solicited_bad
              Examples.solicited_bad_checked [(1, true)] [(2, true)]
              (13, true) "invalid signature" eq_refl eq_refl
              ltac:(repeat constructor) eq_refl)
    as (Hres & Hpool & _ & _).
  rewrite Hres. repeat split.
Defined.

Lemma relayed_bytes_decode_to_group_witness :
  decoder_progresses (H := Toy.collaborators) /\
  Decode (Collaborators := Toy.collaborators) [] = DecEOF /\
  Toy.solicited_group <> [] /\
  reencode Toy.solicited_group = [x01; x02] /\
  decodes (reencode Toy.solicited_group) Toy.solicited_group EndEOF.
Proof.
  split; [exact Toy_decoder_progresses|]. split; [reflexivity|].
  split; [discriminate|]. split; [reflexivity|].
  exact (proj1 (relayed_bytes_decode_to_group Toy_decoder_progresses Toy.h0
                  (9 : @Peer Toy.collaborators) Toy.solicited_group
                  Toy_codec_round_trip eq_refl ltac:(discriminate))).
Defined.

Lemma Toy_decodes_good :
  decodes (Data Toy.msg_good) Toy.solicited_group EndEOF.
Proof.
  unfold Toy.solicited_group.
  do 2 (eapply (decodes_ok (C := Toy.collaborators)); [reflexivity|]).
  apply (decodes_eof (C := Toy.collaborators)). reflexivity.
Qed.

Lemma Toy_decodes_badsig :
  decodes (C := Toy.collaborators) (Data Toy.msg_badsig)
    [(4, false); (13, false); (5, false)] EndEOF.
Proof.
  do 3 (eapply (decodes_ok (C := Toy.collaborators)); [reflexivity|]).
  apply (decodes_eof (C := Toy.collaborators)). reflexivity.
Qed.

Lemma Toy_decodes_dup :
  decodes (Data Examples.msg_dup) Toy.single EndEOF.
Proof.
  unfold Toy.single.
  eapply (decodes_ok (C := Toy.collaborators)); [reflexivity|].
  apply (decodes_eof (C := Toy.collaborators)). reflexivity.
Qed.

Lemma gossip_message_end_to_end_witness :
  decoder_progresses (H := Toy.collaborators) /\
  decodes (Data Toy.msg_good) Toy.solicited_group EndEOF /\
  exists h' : @TxHandler Toy.collaborators,
    run_moves (one_message Toy.msg_good) PriorityCheck Toy.h0
    = Some (PriorityCheck, h') /\
    net h' = [NetRelay (C := Toy.collaborators) "TX" [x01; x02] false 1] /\
    txPool h' = [[1; 2]].
Proof.
  split; [exact Toy_decoder_progresses|]. split; [exact Toy_decodes_good|].
  eexists. split.
  - exact (gossip_message_end_to_end Toy_decoder_progresses Toy.h0
             Toy.msg_good Toy.solicited_group Examples.hdr [[1; 2]]
             eq_refl eq_refl eq_refl Toy_decodes_good ltac:(discriminate)
             eq_refl eq_refl ltac:(repeat constructor) eq_refl).
  - split; reflexivity.
Defined.

Lemma invalid_message_end_to_end_witness :
  decoder_progresses (H := Toy.collaborators) /\
  exists h' : @TxHandler Toy.collaborators,
    run_moves (one_message Toy.msg_badsig) PriorityCheck Toy.h0
    = Some (PriorityCheck, h') /\
    net h' = [NetDisconnect (C := Toy.collaborators) 3] /\
    txPool h' = [] /\
    transactionMessagesHandled h' = 0.
Proof.
  split; [exact Toy_decoder_progresses|].
  eexists. split.
  - exact (invalid_message_end_to_end Toy_decoder_progresses Toy.h0
             Toy.msg_badsig [(4, false); (13, false); (5, false)]
             Examples.hdr [(4, true)] [(5, true)] (13, true)
             "invalid signature"
             eq_refl eq_refl eq_refl Toy_decodes_badsig ltac:(discriminate)
             eq_refl eq_refl eq_refl ltac:(repeat constructor) eq_refl).
  - repeat split.
Defined.

Lemma filtered_message_leaves_no_trace_witness :
  decoder_progresses (H := Toy.collaborators) /\
  snd (checkAlreadyCommitted Toy.h_dup
         (gossip_item Examples.msg_dup Toy.single)) = true /\
  run_moves (take 3 (one_message Examples.msg_dup)) PriorityCheck Toy.h_dup
  = Some (PriorityCheck, Toy.h_dup).
Proof.
  split; [exact Toy_decoder_progresses|]. split; [reflexivity|].
  exact (filtered_message_leaves_no_trace Toy_decoder_progresses Toy.h_dup
           Examples.msg_dup Toy.single eq_refl eq_refl Toy_decodes_dup
           ltac:(discriminate) eq_refl).
Defined.

Lemma processIncomingTxn_answers_witness :
  decoder_progresses (H := Toy.collaborators) /\
  exists (h' : @TxHandler Toy.collaborators) out,
    processIncomingTxn Toy.h0 Toy.msg_corrupt = Some (h', out).
Proof.
  split; [exact Toy_decoder_progresses|].
  destruct (processIncomingTxn_answers Toy_decoder_progresses Toy.h0
              Toy.msg_corrupt) as (h' & out & Hres & _).
  exists h', out. exact Hres.
Defined.

Lemma SubSaturate_saturates_witness :
  basics.is_uint64 5%N /\ basics.is_uint64 7%N /\
  basics.SubSaturate 5%N 7%N = 0%N /\ basics.SubSaturate 7%N 5%N = 2%N.
Proof.
  assert (H5 : basics.is_uint64 5%N) by reflexivity.
  assert (H7 : basics.is_uint64 7%N) by reflexivity.
  split; [exact H5|]. split; [exact H7|]. split.
  - exact (proj1 (SubSaturate_saturates 5%N 7%N H5 H7)).
  - exact (proj1 (SubSaturate_saturates 7%N 5%N H7 H5)).
Defined.

Lemma OneTimeIDForRound_reconstructs_witness :
  (100 <> 0)%N /\
  exists id,
    basics.OneTimeIDForRound 1005%N 100%N = Some id /\
    (basics.Batch id * 100 + basics.Offset id = 1005)%N.
Proof.
  assert (Hk : (100 <> 0)%N) by discriminate.
  split; [exact Hk|].
  destruct (OneTimeIDForRound_reconstructs 1005%N 100%N Hk)
    as (id & Hid & Hsum & _).
  exists id. split; assumption.
Defined.

Lemma OneTimeIDForRound_injective_witness :
  is_Some (basics.OneTimeIDForRound 1005%N 100%N) /\
  basics.OneTimeIDForRound 1005%N 100%N = basics.OneTimeIDForRound 1005%N 100%N /\
  (100 <> 0)%N.
Proof.
  assert (Hsome : is_Some (basics.OneTimeIDForRound 1005%N 100%N))
    by (eexists; reflexivity).
  split; [exact Hsome|]. split; [reflexivity|].
  exact (proj1 (OneTimeIDForRound_injective 1005%N 1005%N 100%N Hsome eq_refl)).
Defined.

Lemma Equal_reflexive_symmetric_witness :
  (forall m, Examples.unit_Equal m m = true) /\
  (forall m1 m2, Examples.unit_Equal m1 m2 = Examples.unit_Equal m2 m1) /\
  transactions.Equal Examples.unit_Equal Examples.lsig_one Examples.lsig_one
  = Some true.
Proof.
  assert (Hrefl : forall m, Examples.unit_Equal m m = true)
    by reflexivity.
  assert (Hsym : forall m1 m2,
             Examples.unit_Equal m1 m2 = Examples.unit_Equal m2 m1)
    by reflexivity.
  split; [exact Hrefl|]. split; [exact Hsym|].
  exact (proj1 (Equal_reflexive_symmetric Examples.unit_Equal
                  Examples.lsig_one Examples.lsig_two Hrefl Hsym)).
Defined.

(** Two different programs, one answer. *)
Lemma Equal_ignores_program_witness :
  transactions.Logic Examples.lsig_one <> [] /\
  transactions.Logic Examples.lsig_one <> transactions.Logic Examples.lsig_two /\
  transactions.Equal Examples.unit_Equal Examples.lsig_two Examples.lsig_one
  = transactions.Equal Examples.unit_Equal Examples.lsig_one Examples.lsig_one.
Proof.
  split; [discriminate|]. split; [discriminate|].
  exact (Equal_ignores_program Examples.unit_Equal Examples.lsig_one
           Examples.lsig_one [x02] ltac:(discriminate) ltac:(discriminate)).
Defined.

Lemma uint64le_round_trip_witness :
  basics.is_uint64 1000%N /\ basics.is_uint64 1001%N /\
  driver.uint64le 1000%N = [xe8; x03; x00; x00; x00; x00; x00; x00] /\
  driver.le_uint (driver.uint64le 1000%N) = 1000%N.
Proof.
  assert (H0 : basics.is_uint64 1000%N) by reflexivity.
  assert (H1 : basics.is_uint64 1001%N) by reflexivity.
  split; [exact H0|]. split; [exact H1|]. split; [reflexivity|].
  exact (proj1 (proj2 (uint64le_round_trip 1000%N 1001%N H0 H1))).
Defined.

(** The old device refuses the msgpack request; the old-style request is
    signed. *)
Lemma signTransactionHelper_signature_witness :
  match driver.signTransactionHelper Examples.exchange_old Examples.encodeTx
          Examples.wallet Examples.payment with
  | Some (lw', sig, err) => length sig = 64 /\ err = None
  | None => False
  end.
Proof.
  destruct (driver.signTransactionHelper Examples.exchange_old
              Examples.encodeTx Examples.wallet Examples.payment)
    as [[[lw' sig] err]|] eqn:Hsign.
  - split.
    + exact (proj1 (signTransactionHelper_signature Examples.exchange_old
                      Examples.encodeTx _ _ _ _ _ Hsign)).
    + vm_compute in Hsign. now injection Hsign as _ _ <-.
  - vm_compute in Hsign. discriminate.
Defined.

Lemma sendTransactionOldStyle_refuses_witness :
  driver.Note Examples.with_note <> [] /\
  exists e,
    driver.sendTransactionOldStyle Examples.exchange_ok Examples.wallet
      Examples.with_note
    = (Examples.wallet, driver.Signature_zero, Some e).
Proof.
  assert (Hnote : driver.Note Examples.with_note <> []) by discriminate.
  split; [exact Hnote|].
  exact (sendTransactionOldStyle_refuses Examples.exchange_ok Examples.wallet
           Examples.with_note (or_intror (or_introl Hnote))).
Defined.

Lemma sendTransactionOldStyle_layout_witness :
  exists msg,
    driver.exchanged
      (fst (fst (driver.sendTransactionOldStyle Examples.exchange_ok
                   Examples.wallet Examples.payment))) = [msg] /\
    length msg = 194.
Proof.
  destruct (sendTransactionOldStyle_layout Examples.exchange_ok
              Examples.wallet Examples.payment
              (or_introl eq_refl) eq_refl ltac:(vm_compute; lia)
              eq_refl eq_refl eq_refl eq_refl eq_refl eq_refl)
    as (msg & lw' & sig & err & Hrun & Hex & Hlen & _).
  exists msg. rewrite Hrun. simpl. split; [exact Hex | exact Hlen].
Defined.

Lemma MultisigSignTransaction_wrong_key_witness :
  (replicate 32 x0c ∉ map driver.Key (driver.Subsigs Examples.partial)) /\
  driver.MultisigSignTransaction Examples.exchange_ok Examples.encodeTx
    Examples.wallet Examples.payment (replicate 32 x0c) Examples.partial
  = Some (Examples.wallet, Examples.partial, Some driver.errMsigWrongKey).
Proof.
  assert (Hpk : replicate 32 x0c
                  ∉ map driver.Key (driver.Subsigs Examples.partial)).
  { apply (bool_decide_unpack _). vm_compute. exact I. }
  split; [exact Hpk|].
  exact (MultisigSignTransaction_wrong_key Examples.exchange_ok
           Examples.encodeTx Examples.wallet Examples.payment _ _ Hpk).
Defined.

Lemma MultisigSignTransaction_signs_witness :
  (Examples.key_a ∈ map driver.Key (driver.Subsigs Examples.partial)) /\
  exists lw' partial',
    driver.MultisigSignTransaction Examples.exchange_ok Examples.encodeTx
      Examples.wallet Examples.payment Examples.key_a Examples.partial
    = Some (lw', partial', None) /\
    map driver.Key (driver.Subsigs partial')
    = [Examples.key_a; Examples.key_b].
Proof.
  assert (Hpk : Examples.key_a
                  ∈ map driver.Key (driver.Subsigs Examples.partial)).
  { apply (bool_decide_unpack _). vm_compute. exact I. }
  split; [exact Hpk|].
  destruct (driver.signTransactionHelper Examples.exchange_ok
              Examples.encodeTx Examples.wallet Examples.payment)
    as [[[lw' sig] err]|] eqn:Hsign; [|vm_compute in Hsign; discriminate].
  assert (Herr : err = None)
    by (vm_compute in Hsign; now injection Hsign as _ _ <-).
  subst err.
  destruct (MultisigSignTransaction_signs Examples.exchange_ok
              Examples.encodeTx Examples.wallet lw' Examples.payment
              Examples.key_a Examples.partial sig None Hpk Hsign)
    as (partial' & Hres & _ & Hkeys & _).
  exists lw', partial'. split; [exact Hres | exact Hkeys].
Defined.

Lemma program_signing_always_fails_witness :
  (replicate 32 x0c ∉ map driver.Key (driver.Subsigs Examples.partial)) /\
  driver.MultisigSignProgram Examples.wallet [x01] (replicate 32 x0c)
    Examples.partial
  = (Examples.wallet, Examples.partial, Some driver.errMsigWrongKey).
Proof.
  assert (Hpk : replicate 32 x0c
                  ∉ map driver.Key (driver.Subsigs Examples.partial)).
  { apply (bool_decide_unpack _). vm_compute. exact I. }
  split; [exact Hpk|].
  exact (proj2 (proj2 (program_signing_always_fails Examples.wallet [x01]
                         (replicate 32 x0c) Examples.partial)) Hpk).
Defined.
